(** * grbpop.functional_forms: rate-density formulas, embedded and verified

    The Python module [grbpop/functional_forms.py] is a flat library of twelve
    closed-form functions of a redshift [z] or a log-luminosity [logL].  This
    development embeds the twelve functions line by line and proves the
    properties stated about them.

    Layout:
    - [Np]: the fragment of numpy the module relies on (scalars, 0-d and
      1-d arrays, broadcasting ufuncs, [np.where]);
    - [Float]: the interface of the number type (literals, arithmetic, [**],
      [exp], comparisons).  The functions are written once, over any
      instance, so every structural fact holds for IEEE doubles as well;
    - [Exact]: the instance of exact real arithmetic, in which an operation
      without a real value (division by zero, [0 ** y] for negative [y], a
      negative base with a fractional exponent) yields [None].  The facts
      about the formulas (continuity at the breaks, bounds, identities) are
      proved there; rounding, overflow and underflow of doubles are outside
      this model;
    - [Double]: doubles up to rounding: exact inside the range of doubles,
      rounded to zero below it and not a finite number above it.  The facts
      that depend on the range (positivity, definedness) are proved
      there. *)

From Stdlib Require Import Reals Lra Lia List String ZArith QArith Qreals Bool.
Import ListNotations.

Set Implicit Arguments.

(** ** The numpy fragment *)

Module Np.

(** What a function of the module can be handed or hand back: a Python or
    numpy scalar, a 0-d [ndarray] (what [np.where] builds from scalars), or
    a 1-d [ndarray]. *)
Inductive ndarray (A : Type) : Type :=
| Scalar (x : A)
| Arr0 (x : A)
| Arr1 (xs : list A).

Arguments Scalar {A} x.
Arguments Arr0 {A} x.
Arguments Arr1 {A} xs.

(** [np.shape]. *)
Definition shape {A} (v : ndarray A) : list nat :=
  match v with
  | Scalar _ | Arr0 _ => []
  | Arr1 xs => [List.length xs]
  end.

(** [np.isscalar]: false on every [ndarray], also a 0-d one. *)
Definition isscalar {A} (v : ndarray A) : bool :=
  match v with
  | Scalar _ => true
  | _ => false
  end.

(** The entries, in order ([np.ravel]). *)
Definition ravel {A} (v : ndarray A) : list A :=
  match v with
  | Scalar x | Arr0 x => [x]
  | Arr1 xs => xs
  end.

(** Elementwise pairing of two 1-d arrays of one length. *)
Fixpoint map2 {A B C} (f : A -> B -> C) (xs : list A) (ys : list B) : list C :=
  match xs, ys with
  | x :: xs', y :: ys' => f x y :: map2 f xs' ys'
  | _, _ => []
  end.

(** A unary ufunc (or a unary Python operator): elementwise on an array; a
    0-d result is handed back as a scalar. *)
Definition ufunc1 {A B} (f : A -> B) (v : ndarray A) : ndarray B :=
  match v with
  | Scalar x | Arr0 x => Scalar (f x)
  | Arr1 xs => Arr1 (map f xs)
  end.

(** A binary ufunc (or a binary Python operator) with broadcasting of a
    zero-dimensional operand against a 1-d one.  In this module two 1-d
    operands always derive from the same independent variable, hence have
    one length, and are paired entry by entry. *)
Definition ufunc2 {A B C} (f : A -> B -> C) (u : ndarray A) (v : ndarray B)
  : ndarray C :=
  match u, v with
  | Arr1 xs, Arr1 ys => Arr1 (map2 f xs ys)
  | Arr1 xs, (Scalar y | Arr0 y) => Arr1 (map (fun x => f x y) xs)
  | (Scalar x | Arr0 x), Arr1 ys => Arr1 (map (f x) ys)
  | (Scalar x | Arr0 x), (Scalar y | Arr0 y) => Scalar (f x y)
  end.

(** [np.asarray]: a scalar becomes a 0-d array. *)
Definition asarray {A} (v : ndarray A) : ndarray A :=
  match v with
  | Scalar x => Arr0 x
  | _ => v
  end.

(** [np.where(c, x, y)]: broadcasts its three operands, selects entry by
    entry, and always returns an [ndarray]. *)
Definition where_ {A} (c : ndarray bool) (x y : ndarray A) : ndarray A :=
  asarray
    (ufunc2 (fun g v => g v)
       (ufunc2 (fun (b : bool) u v => if b then u else v) c x) y).

End Np.

Import Np.

(** ** Exceptions *)

Inductive exn : Type :=
| ValueError (msg : string)
| IndexError.

Inductive result (A : Type) : Type :=
| Ok (v : A)
| Raise (e : exn).

Arguments Ok {A} v.
Arguments Raise {A} e.

Definition bind {A B} (r : result A) (k : A -> result B) : result B :=
  match r with
  | Ok v => k v
  | Raise e => Raise e
  end.

Notation "x <- r ;; k" := (bind r (fun x => k))
  (at level 61, r at next level, right associativity).

(** [l[i]] on a Python list: a negative index counts from the end, an index
    out of range raises [IndexError]. *)
Definition getitem {A} (l : list A) (i : Z) : result A :=
  let n := Z.of_nat (List.length l) in
  let j := if (i <? 0)%Z then (i + n)%Z else i in
  if ((0 <=? j)%Z && (j <? n)%Z)%bool then
    match nth_error l (Z.to_nat j) with
    | Some x => Ok x
    | None => Raise IndexError
    end
  else Raise IndexError.

(** [x in l] on a list of ints. *)
Definition contains (l : list Z) (x : Z) : bool := existsb (Z.eqb x) l.

(** ** The number type *)

(** What the module asks of its numbers.  [lit q] is the float a decimal
    literal [q] denotes; an int literal in float arithmetic is [lit] of the
    integer. *)
Class Float (F : Type) : Type := {
  lit : Q -> F;
  fadd : F -> F -> F;
  fsub : F -> F -> F;
  fmul : F -> F -> F;
  fdiv : F -> F -> F;
  fpow : F -> F -> F;
  fneg : F -> F;
  fexp : F -> F;
  fle : F -> F -> bool;
  fge : F -> F -> bool
}.

(** [scipy.special.gammainc], the regularized lower incomplete gamma
    function, is the one special function the module calls. *)
Class Special (F : Type) : Type := {
  gammainc : F -> F -> F
}.

Declare Scope float_scope.
Delimit Scope float_scope with fl.
Declare Scope np_scope.
Delimit Scope np_scope with np.

Infix "+" := fadd : float_scope.
Infix "-" := fsub : float_scope.
Infix "*" := fmul : float_scope.
Infix "/" := fdiv : float_scope.
Infix "**" := fpow (at level 30, right associativity) : float_scope.

Infix "+" := (ufunc2 fadd) : np_scope.
Infix "-" := (ufunc2 fsub) : np_scope.
Infix "*" := (ufunc2 fmul) : np_scope.
Infix "/" := (ufunc2 fdiv) : np_scope.
Infix "**" := (ufunc2 fpow) (at level 30, right associativity) : np_scope.
Infix "<=?" := (ufunc2 fle) : np_scope.
Infix ">=?" := (ufunc2 fge) (at level 70) : np_scope.
Notation "- x" := (ufunc1 fneg x) : np_scope.

(** ** The twelve functions

    Each definition follows its Python source statement by statement.  The
    independent variable is an [ndarray]; the named parameters are numbers.
    A parameter with a default is an explicit argument here, and the
    [_default] companion of a function passes the defaults of its [def]. *)

Section FunctionalForms.

Context {F : Type} `{Float F}.

Local Open Scope np_scope.

Local Notation "'array'" := (ndarray F).

(** [np.exp]. *)
Definition np_exp (v : array) : array := ufunc1 fexp v.

Definition Schechter_log (logL : array) (logLbreak slope : F) : array :=
  let x := Scalar (lit 10) ** (logL - Scalar logLbreak) in
  let Sch := x ** Scalar (lit 1 - slope)%fl * np_exp (- x) in
  Sch.

(** The two expressions [np.where] selects from in [BPL_lum]. *)
Definition BPL_lum_low (x : array) (slopeL : F) : array :=
  x ** Scalar (lit 1 - slopeL)%fl.

Definition BPL_lum_high (x : array) (slopeH : F) : array :=
  x ** Scalar (lit 1 - slopeH)%fl.

Definition BPL_lum (logL : array) (logLbreak slopeL slopeH : F) : array :=
  let x := Scalar (lit 10) ** (logL - Scalar logLbreak) in
  let BPL_func :=
    where_ (x <=? Scalar (lit 1)) (BPL_lum_low x slopeL) (BPL_lum_high x slopeH) in
  BPL_func.

Definition SH03 (z : array) (a b zm nu IMF_norm : F) : array :=
  let shape :=
    Scalar a * np_exp (Scalar b * (z - Scalar zm))
    / (Scalar (a - b)%fl + Scalar b * np_exp (Scalar a * (z - Scalar zm))) in
  let norm := (IMF_norm * nu)%fl in
  Scalar norm * shape.

Definition SH03_default (z : array) : array :=
  SH03 z (lit 2.37) (lit 1.8) (lit 2) (lit 0.178) (lit 0.007422).

(** The three segments of [HB06]. *)
Definition HB06_low (z : array) (a : F) : array :=
  (Scalar (lit 1) + z) ** Scalar a.

Definition HB06_mid (z : array) (z1 a b : F) : array :=
  (Scalar (lit 1) + z) ** Scalar b * Scalar ((lit 1 + z1) ** (a - b))%fl.

Definition HB06_high (z : array) (z1 z2 a b c : F) : array :=
  (Scalar (lit 1) + z) ** Scalar c
  * Scalar ((lit 1 + z2) ** (b - c))%fl
  * Scalar ((lit 1 + z1) ** (a - b))%fl.

Definition HB06 (z : array) (z1 z2 a b c norm IMF_norm : F) : array :=
  let shape := where_ (z <=? Scalar z1) (HB06_low z a) (HB06_mid z z1 a b) in
  let shape := where_ (z >=? Scalar z2) (HB06_high z z1 z2 a b c) shape in
  Scalar norm * shape.

Definition HB06_default (z : array) : array :=
  HB06 z (lit 0.97) (lit 4.48) (lit 3.44) (lit (-0.26)) (lit (-7.8))
    (lit 0.0197) (lit 0.007422).

(** The two expressions [np.where] selects from in [BExp]. *)
Definition BExp_low (z : array) (a : F) : array :=
  np_exp (Scalar a * z).

Definition BExp_high (z : array) (a b zm : F) : array :=
  np_exp (Scalar b * z) * Scalar (fexp ((a - b) * zm)%fl).

Definition BExp (z : array) (a b zm SFR_norm IMF_norm : F) (nGRB0 : option F)
  : array :=
  let shape := where_ (z <=? Scalar zm) (BExp_low z a) (BExp_high z a b zm) in
  let norm :=
    match nGRB0 with
    | None => (IMF_norm * SFR_norm)%fl
    | Some n => n
    end in
  Scalar norm * shape.

Definition BExp_default (z : array) : array :=
  BExp z (lit 1.1) (lit (-0.57)) (lit 1.9) (lit 0.02744) (lit 0.007422) None.

Definition Li08 (z : array) (a b c d IMF_norm : F) : array :=
  Scalar IMF_norm * (Scalar a + Scalar b * z)
  / (Scalar (lit 1) + (z / Scalar c) ** Scalar d).

Definition Li08_default (z : array) : array :=
  Li08 z (lit 0.0157) (lit 0.118) (lit 3.23) (lit 4.66) (lit 0.007422).

Definition S12 `{Special F} (z : array) (Zth n_dens : option F) : array :=
  let shape := Li08_default z in
  let shape :=
    match n_dens with
    | Some n => shape * (Scalar (lit 1) + z) ** Scalar n
    | None => shape
    end in
  let shape :=
    match Zth with
    | Some t =>
        shape
        * ufunc2 gammainc (Scalar (lit 0.84))
            (Scalar (t ** lit 2)%fl * Scalar (lit 10) ** (Scalar (lit 0.3) * z))
    | None => shape
    end in
  shape.

(** The two expressions [np.where] selects from in [BPL_z]. *)
Definition BPL_z_low (z : array) (a : F) : array :=
  (Scalar (lit 1) + z) ** Scalar a.

Definition BPL_z_high (z : array) (a b zm : F) : array :=
  (Scalar (lit 1) + z) ** Scalar b * Scalar ((lit 1 + zm) ** (a - b))%fl.

Definition BPL_z (z : array) (a b zm nGRB0 eta0 av_jet_ang : F) : array :=
  let shape := where_ (z <=? Scalar zm) (BPL_z_low z a) (BPL_z_high z a b zm) in
  let norm := (nGRB0 / (eta0 * av_jet_ang))%fl in
  Scalar norm * shape.

Definition BPL_z_default (z : array) : array :=
  BPL_z z (lit 2.07) (lit (-1.36)) (lit 3.11) (lit 1.3e-9) (lit 1) (lit 1).

Definition MD14 (z : array) (a b c d IMF_norm : F) : array :=
  let shape :=
    (Scalar (lit 1) + z) ** Scalar b
    / (Scalar (lit 1) + ((Scalar (lit 1) + z) / Scalar c) ** Scalar d) in
  let norm := (IMF_norm * a)%fl in
  Scalar norm * shape.

Definition MD14_default (z : array) : array :=
  MD14 z (lit 0.015) (lit 2.7) (lit 2.9) (lit 5.6) (lit 0.007422).

Definition Rob15 (z : array) (a b c d a_err b_err c_err d_err IMF_norm : F)
  : array :=
  let shape :=
    (Scalar (lit 1) + z) ** Scalar b
    / (Scalar (lit 1) + ((Scalar (lit 1) + z) / Scalar c) ** Scalar d) in
  let norm := (IMF_norm * a)%fl in
  Scalar norm * shape.

Definition Rob15_default (z : array) : array :=
  Rob15 z (lit 0.01376) (lit 3.26) (lit 2.59) (lit 5.68)
    (lit 0.001) (lit 0.21) (lit 0.14) (lit 0.19) (lit 0.007422).

Definition mod_error : exn := ValueError "mod must be A or LN".

Definition SFR_error : exn := ValueError "SFR must be an int equal to 1, 2, or 3.".

Definition qD06 (z : array) (SFR : Z) (mod_ : string) (IMF_norm : F)
  : result array :=
  let a_s := [lit 0.320; lit 0.196; lit 0.175] in
  let b_s := [lit 3.30; lit 4.0; lit 3.67] in
  let c_s := [lit 3.52; lit 4.0; lit 3.48] in
  let d_s := [lit 23.6; lit 14.6; lit 12.6] in
  k_s <- (if (mod_ =? "LN")%string then Ok [lit 2.5e-6; lit 2e-6; lit 6.3e-7]
          else if (mod_ =? "A")%string then Ok [lit 4e-6; lit 3.2e-6; lit 1.2e-6]
          else Raise mod_error) ;;
  _ <- (if negb (contains [1; 2; 3]%Z SFR) then Raise SFR_error else Ok tt) ;;
  a <- getitem a_s (SFR - 1)%Z ;;
  b <- getitem b_s (SFR - 1)%Z ;;
  d <- getitem d_s (SFR - 1)%Z ;;
  c <- getitem c_s (SFR - 1)%Z ;;
  let shape :=
    Scalar a * np_exp (Scalar b * z) / (Scalar d + np_exp (Scalar c * z)) in
  k <- getitem k_s (SFR - 1)%Z ;;
  let norm := (k * IMF_norm)%fl in
  Ok (Scalar norm * shape).

(** [qD06] with [mod] left at its default ['A'] and [IMF_norm] at [0.0122]. *)
Definition qD06_default (z : array) (SFR : Z) : result array :=
  qD06 z SFR "A" (lit 0.0122).

Definition D06 (z : array) (a b c d IMF_norm : F) : array :=
  let shape :=
    Scalar a * np_exp (Scalar b * z) / (Scalar d + np_exp (Scalar c * z)) in
  let norm := IMF_norm in
  Scalar norm * shape.

End FunctionalForms.

(** ** The library seen as a whole

    One constructor per function of the module, with its arguments, and the
    outcome of the call: a value, or the exception the call raises. *)

Section Library.

Context {F : Type} `{Float F} `{Special F}.

Local Notation "'array'" := (ndarray F).

Inductive call : Type :=
| Call_Schechter_log (logL : array) (logLbreak slope : F)
| Call_BPL_lum (logL : array) (logLbreak slopeL slopeH : F)
| Call_SH03 (z : array) (a b zm nu IMF_norm : F)
| Call_HB06 (z : array) (z1 z2 a b c norm IMF_norm : F)
| Call_BExp (z : array) (a b zm SFR_norm IMF_norm : F) (nGRB0 : option F)
| Call_S12 (z : array) (Zth n_dens : option F)
| Call_Li08 (z : array) (a b c d IMF_norm : F)
| Call_BPL_z (z : array) (a b zm nGRB0 eta0 av_jet_ang : F)
| Call_MD14 (z : array) (a b c d IMF_norm : F)
| Call_Rob15 (z : array) (a b c d a_err b_err c_err d_err IMF_norm : F)
| Call_qD06 (z : array) (SFR : Z) (mod_ : string) (IMF_norm : F)
| Call_D06 (z : array) (a b c d IMF_norm : F).

(** Only [qD06] holds a [raise] statement. *)
Definition run (c : call) : result array :=
  match c with
  | Call_Schechter_log logL logLbreak slope => Ok (Schechter_log logL logLbreak slope)
  | Call_BPL_lum logL logLbreak slopeL slopeH => Ok (BPL_lum logL logLbreak slopeL slopeH)
  | Call_SH03 z a b zm nu IMF_norm => Ok (SH03 z a b zm nu IMF_norm)
  | Call_HB06 z z1 z2 a b c norm IMF_norm => Ok (HB06 z z1 z2 a b c norm IMF_norm)
  | Call_BExp z a b zm SFR_norm IMF_norm nGRB0 => Ok (BExp z a b zm SFR_norm IMF_norm nGRB0)
  | Call_S12 z Zth n_dens => Ok (S12 z Zth n_dens)
  | Call_Li08 z a b c d IMF_norm => Ok (Li08 z a b c d IMF_norm)
  | Call_BPL_z z a b zm nGRB0 eta0 av_jet_ang => Ok (BPL_z z a b zm nGRB0 eta0 av_jet_ang)
  | Call_MD14 z a b c d IMF_norm => Ok (MD14 z a b c d IMF_norm)
  | Call_Rob15 z a b c d a_err b_err c_err d_err IMF_norm =>
      Ok (Rob15 z a b c d a_err b_err c_err d_err IMF_norm)
  | Call_qD06 z SFR mod_ IMF_norm => qD06 z SFR mod_ IMF_norm
  | Call_D06 z a b c d IMF_norm => Ok (D06 z a b c d IMF_norm)
  end.

End Library.

(** ** Vocabulary of the specification *)

(** An invalid-argument error is Python's [ValueError]. *)
Definition invalid_argument {A} (r : result A) : Prop :=
  exists msg, r = Raise (ValueError msg).

(** [v] has the shape of [z], and is a scalar if [z] is one. *)
Definition same_kind {A} (z v : ndarray A) : Prop :=
  shape v = shape z /\ implb (isscalar z) (isscalar v) = true.

(** [mod] is one of 'A', 'LN'. *)
Definition valid_mod (m : string) : bool :=
  ((m =? "A")%string || (m =? "LN")%string)%bool.

(** [SFR] is one of 1, 2, 3. *)
Definition valid_SFR (s : Z) : bool :=
  ((s =? 1)%Z || (s =? 2)%Z || (s =? 3)%Z)%bool.

(** ** Exact real arithmetic *)

Module Exact.

Local Open Scope R_scope.

(** A real number, or [None] where the operation has no real value: numpy
    then yields [nan] or an infinity, plain Python floats raise
    [ZeroDivisionError] or yield a complex number. *)
Definition num : Type := option R.

Definition lift1 (f : R -> R) (u : num) : num :=
  match u with
  | Some x => Some (f x)
  | None => None
  end.

Definition lift2 (f : R -> R -> R) (u v : num) : num :=
  match u, v with
  | Some x, Some y => Some (f x y)
  | _, _ => None
  end.

Definition div (u v : num) : num :=
  match u, v with
  | Some x, Some y => if Req_dec_T y 0 then None else Some (x / y)
  | _, _ => None
  end.

(** [x ** y]: [exp (y * ln x)] on a positive base; [0 ** y] is [0] for a
    positive [y] and [1] for [y = 0]; a negative base has a real power at
    an integer exponent only. *)
Definition pow (u v : num) : num :=
  match u, v with
  | Some x, Some y =>
      if Rlt_dec 0 x then Some (Rpower x y)
      else if Req_dec_T x 0 then
        if Rlt_dec 0 y then Some 0
        else if Req_dec_T y 0 then Some 1
        else None
      else
        if Req_dec_T (IZR (Int_part y)) y then Some (powerRZ x (Int_part y))
        else None
  | _, _ => None
  end.

(** A comparison with an operand that is no number is false. *)
Definition le (u v : num) : bool :=
  match u, v with
  | Some x, Some y => if Rle_dec x y then true else false
  | _, _ => false
  end.

Definition ge (u v : num) : bool :=
  match u, v with
  | Some x, Some y => if Rle_dec y x then true else false
  | _, _ => false
  end.

#[export] Instance float : Float num := {
  lit q := Some (Q2R q);
  fadd := lift2 Rplus;
  fsub := lift2 Rminus;
  fmul := lift2 Rmult;
  fdiv := div;
  fpow := pow;
  fneg := lift1 Ropp;
  fexp := lift1 exp;
  fle := le;
  fge := ge
}.

(** Every entry of [v] is a real number, and one that satisfies [P]. *)
Definition entries (P : R -> Prop) (v : ndarray num) : Prop :=
  Forall (fun e => exists x, e = Some x /\ P x) (ravel v).

End Exact.

(** ** Doubles, up to rounding *)

Module Double.

Local Open Scope R_scope.

(** A result of this magnitude or more rounds to an infinity: the midpoint
    between the largest double, [2^1024 - 2^971], and [2^1024]. *)
Definition overflow : R := 2 ^ 1024 - 2 ^ 970.

(** A result of this magnitude or less rounds to zero: half the smallest
    positive double, [2^-1074]. *)
Definition underflow : R := / 2 ^ 1075.

(** Exponents up to [limit] in magnitude keep [exp] well inside the range
    of doubles: [2^-1075 < exp(-500)] and [exp(500) < 2^1023]. *)
Definition limit : R := 500.

(** A finite double, or [NaF] for what is not a finite number: an
    infinity, nan, or the exception Python raises in its place.  The model
    does not follow a computation past that point: [NaF] is absorbing
    (IEEE arithmetic can come back from an infinity, as in [1/inf = 0.0];
    nothing below asserts a value on such a path). *)
Inductive dbl : Type :=
| Fin (r : R)
| NaF.

(** The double an exact result [r] becomes: the range of doubles is
    enforced, the rounding inside the range is left out. *)
Definition range (r : R) : dbl :=
  if Rle_dec overflow (Rabs r) then NaF
  else if Rle_dec (Rabs r) underflow then Fin 0
  else Fin r.

Definition lift2 (f : R -> R -> R) (u v : dbl) : dbl :=
  match u, v with
  | Fin x, Fin y => range (f x y)
  | _, _ => NaF
  end.

Definition dneg (u : dbl) : dbl :=
  match u with
  | Fin x => Fin (- x)
  | NaF => NaF
  end.

Definition dexp (u : dbl) : dbl :=
  match u with
  | Fin x => range (exp x)
  | NaF => NaF
  end.

Definition ddiv (u v : dbl) : dbl :=
  match u, v with
  | Fin x, Fin y => if Req_dec_T y 0 then NaF else range (x / y)
  | _, _ => NaF
  end.

(** [x ** y]: the real power of [Exact.pow], brought into range. *)
Definition dpow (u v : dbl) : dbl :=
  match u, v with
  | Fin x, Fin y =>
      match Exact.pow (Some x) (Some y) with
      | Some r => range r
      | None => NaF
      end
  | _, _ => NaF
  end.

Definition dle (u v : dbl) : bool :=
  match u, v with
  | Fin x, Fin y => if Rle_dec x y then true else false
  | _, _ => false
  end.

Definition dge (u v : dbl) : bool :=
  match u, v with
  | Fin x, Fin y => if Rle_dec y x then true else false
  | _, _ => false
  end.

#[export] Instance binary64 : Float dbl := {
  lit q := range (Q2R q);
  fadd := lift2 Rplus;
  fsub := lift2 Rminus;
  fmul := lift2 Rmult;
  fdiv := ddiv;
  fpow := dpow;
  fneg := dneg;
  fexp := dexp;
  fle := dle;
  fge := dge
}.

(** Every entry of [v] is a finite double, and one that satisfies [P]. *)
Definition all_entries (P : R -> Prop) (v : ndarray dbl) : Prop :=
  Forall (fun e => exists x, e = Fin x /\ P x) (ravel v).

(** [v] is the finite double [r], and [r] lies in [exp(-L), exp(U)]. *)
Definition val (L U r : R) (v : dbl) : Prop :=
  v = Fin r /\ exp (- L) <= r <= exp U.

End Double.

(** ** Arrays are handled entry by entry *)

Section Lists.

Variables A B C D : Type.

Lemma map2_map (f : B -> C -> D) (g : A -> B) (h : A -> C) (xs : list A) :
  map2 f (map g xs) (map h xs) = map (fun x => f (g x) (h x)) xs.
Proof.
  induction xs as [|x xs IH]; cbn; [reflexivity|].
  now rewrite IH.
Qed.

Lemma flat_map_singleton (k : A -> B) (xs : list A) :
  flat_map (fun x => [k x]) xs = map k xs.
Proof.
  induction xs as [|x xs IH]; cbn; [reflexivity|].
  now rewrite IH.
Qed.

End Lists.

(** Brings a call on a 1-d array to the form [Arr1 (map k zs)]. *)
Ltac np_fuse :=
  cbn; repeat (rewrite map_map || rewrite map2_map); cbn.

Ltac np_shape z :=
  destruct z as [?|?|?]; np_fuse; rewrite ?length_map; reflexivity.

Lemma valid_SFR_spec (s : Z) :
  valid_SFR s = true <-> s = 1%Z \/ s = 2%Z \/ s = 3%Z.
Proof.
  unfold valid_SFR.
  destruct (Z.eqb_spec s 1), (Z.eqb_spec s 2), (Z.eqb_spec s 3); cbn;
    intuition congruence.
Qed.

Lemma valid_mod_spec (m : string) :
  valid_mod m = true <-> m = "A"%string \/ m = "LN"%string.
Proof.
  unfold valid_mod.
  destruct (String.eqb_spec m "A"), (String.eqb_spec m "LN"); cbn;
    intuition congruence.
Qed.

Section Structure.

Context {F : Type} `{Float F}.

Local Notation "'array'" := (ndarray F).

(** The three ways a call of [qD06] ends. *)
Lemma qD06_cases (z : array) (s : Z) (m : string) (i : F) :
  (valid_mod m = false /\ qD06 z s m i = Raise mod_error)
  \/ (valid_mod m = true /\ valid_SFR s = false /\ qD06 z s m i = Raise SFR_error)
  \/ (valid_mod m = true /\ valid_SFR s = true
      /\ exists a b c d k, qD06 z s m i = Ok (D06 z a b c d (k * i)%fl)).
Proof.
  unfold qD06, valid_mod, valid_SFR, contains.
  destruct (String.eqb_spec m "LN") as [->|HLN];
    [|destruct (String.eqb_spec m "A") as [->|HA]]; cbn;
    [| |now left];
    (destruct (Z.eqb_spec s 1) as [->|];
     [|destruct (Z.eqb_spec s 2) as [->|];
       [|destruct (Z.eqb_spec s 3) as [->|]]]); cbn;
    try (right; left; now auto);
    right; right; (repeat split; [reflexivity..|]);
    do 5 eexists; reflexivity.
Qed.

Lemma D06_shape (z : array) (a b c d i : F) :
  shape (D06 z a b c d i) = shape z.
Proof. unfold D06. np_shape z. Qed.

End Structure.

(** ** Facts that hold for every number type *)

Section Generic.

Context {F : Type} `{Float F} `{Special F}.

Local Notation "'array'" := (ndarray F).

Lemma invalid_argument_Ok (A : Type) (v : A) : ~ invalid_argument (Ok v).
Proof. intros [msg E]. discriminate E. Qed.

Lemma qD06_invalid_iff (z : array) (s : Z) (m : string) (i : F) :
  invalid_argument (qD06 z s m i) <-> valid_mod m = false \/ valid_SFR s = false.
Proof.
  destruct (qD06_cases z s m i)
    as [[Hm E]|[[Hm [Hs E]]|[Hm [Hs (a & b & c & d & k & E)]]]]; rewrite E.
  - split; [now left|]. intros _. now eexists.
  - split; [now right|]. intros _. now eexists.
  - split.
    + intros C. now apply invalid_argument_Ok in C.
    + intros [C|C]; congruence.
Qed.

(** C2: [qD06] raises an invalid-argument error exactly when [mod] is not
    one of 'A', 'LN' or [SFR] is not one of 1, 2, 3, and it raises nothing
    else; [qD06(z, SFR=4)] and [qD06(z, SFR=1, mod='X')] raise,
    [qD06(z, SFR=1, mod='A')] returns; and a call of the library that ends
    in an invalid-argument error is such a call of [qD06]. *)
Theorem qD06_raises_iff_invalid :
  (forall (z : array) s m i,
      invalid_argument (qD06 z s m i)
      <-> valid_mod m = false \/ valid_SFR s = false)
  /\ (forall (z : array) s m i, qD06 z s m i <> Raise IndexError)
  /\ (forall z : array, invalid_argument (qD06_default z 4))
  /\ (forall z : array, invalid_argument (qD06 z 1 "X" (lit 0.0122)))
  /\ (forall z : array, exists v, qD06 z 1 "A" (lit 0.0122) = Ok v)
  /\ (forall c : call,
        invalid_argument (run c)
        <-> exists z s m i,
            c = Call_qD06 z s m i
            /\ (valid_mod m = false \/ valid_SFR s = false)).
Proof.
  split; [exact qD06_invalid_iff|].
  split.
  { intros z s m i.
    destruct (qD06_cases z s m i)
      as [[_ E]|[[_ [_ E]]|[_ [_ (a & b & c & d & k & E)]]]];
      rewrite E; discriminate. }
  split; [intros z; eexists; reflexivity|].
  split; [intros z; eexists; reflexivity|].
  split; [intros z; eexists; reflexivity|].
  intros c; split.
  - destruct c; cbn [run]; intros C;
      try (now apply invalid_argument_Ok in C).
    apply qD06_invalid_iff in C. now do 4 eexists.
  - intros (z & s & m & i & -> & C). cbn [run]. now apply qD06_invalid_iff.
Qed.

(** C3: [qD06(z, SFR=1, mod='A')] is
    [D06(z, 0.320, 3.30, 3.52, 23.6, IMF_norm=4e-6*0.0122)]. *)
Theorem qD06_preset_is_D06 (z : array) :
  qD06 z 1 "A" (lit 0.0122)
  = Ok (D06 z (lit 0.320) (lit 3.30) (lit 3.52) (lit 23.6)
          (lit 4e-6 * lit 0.0122)%fl).
Proof. reflexivity. Qed.

(** The other presets, likewise. *)
Lemma qD06_presets (z : array) (i : F) :
  qD06 z 1 "A" i
  = Ok (D06 z (lit 0.320) (lit 3.30) (lit 3.52) (lit 23.6) (lit 4e-6 * i)%fl)
  /\ qD06 z 2 "A" i
     = Ok (D06 z (lit 0.196) (lit 4.0) (lit 4.0) (lit 14.6) (lit 3.2e-6 * i)%fl)
  /\ qD06 z 3 "A" i
     = Ok (D06 z (lit 0.175) (lit 3.67) (lit 3.48) (lit 12.6) (lit 1.2e-6 * i)%fl)
  /\ qD06 z 1 "LN" i
     = Ok (D06 z (lit 0.320) (lit 3.30) (lit 3.52) (lit 23.6) (lit 2.5e-6 * i)%fl)
  /\ qD06 z 2 "LN" i
     = Ok (D06 z (lit 0.196) (lit 4.0) (lit 4.0) (lit 14.6) (lit 2e-6 * i)%fl)
  /\ qD06 z 3 "LN" i
     = Ok (D06 z (lit 0.175) (lit 3.67) (lit 3.48) (lit 12.6) (lit 6.3e-7 * i)%fl).
Proof. repeat split. Qed.

(** C5: [S12(z)] with [Zth=None] and [n_dens=None] is [Li08(z)] with the
    defaults of [Li08], for a scalar and for an array alike. *)
Theorem S12_without_modifiers (z : array) :
  S12 z None None
  = Li08 z (lit 0.0157) (lit 0.118) (lit 3.23) (lit 4.66) (lit 0.007422).
Proof. reflexivity. Qed.

(** C6: [Rob15] is [MD14] on the same [a], [b], [c], [d], [IMF_norm],
    whatever its four error magnitudes are. *)
Theorem Rob15_errors_inert (z : array) (a b c d IMF_norm : F)
    (a_err b_err c_err d_err : F) :
  MD14 z a b c d IMF_norm
  = Rob15 z a b c d a_err b_err c_err d_err IMF_norm.
Proof. reflexivity. Qed.

(** C7: the result of [HB06] is [norm * shape], the same for any two
    values of [IMF_norm]. *)
Theorem HB06_ignores_IMF_norm (z : array) (z1 z2 a b c norm : F)
    (IMF_norm IMF_norm' : F) :
  HB06 z z1 z2 a b c norm IMF_norm = HB06 z z1 z2 a b c norm IMF_norm'
  /\ HB06 z z1 z2 a b c norm IMF_norm
     = (Scalar norm
        * where_ (z >=? Scalar z2) (HB06_high z z1 z2 a b c)
            (where_ (z <=? Scalar z1) (HB06_low z a) (HB06_mid z z1 a b)))%np.
Proof. split; reflexivity. Qed.

(** C9: the check of [mod] comes first: the error about [mod] is raised
    whenever [mod] is invalid, also with an invalid [SFR], and the error
    about [SFR] is raised only with a valid [mod]. *)
Theorem qD06_mod_checked_first (z : array) (s : Z) (m : string) (i : F) :
  (qD06 z s m i = Raise mod_error <-> valid_mod m = false)
  /\ (qD06 z s m i = Raise SFR_error
      <-> valid_mod m = true /\ valid_SFR s = false).
Proof.
  destruct (qD06_cases z s m i)
    as [[Hm E]|[[Hm [Hs E]]|[Hm [Hs (a & b & c & d & k & E)]]]];
    rewrite E, Hm; unfold mod_error, SFR_error;
    (split; split; try (intros [? ?]); try congruence; intros ?;
     try congruence; try discriminate; auto).
Qed.

End Generic.

Section Shapes.

Context {F : Type} `{Float F} `{Special F}.

Local Notation "'array'" := (ndarray F).

(** C8, as amended: each of the twelve functions returns a value of the
    shape of its independent variable: an array of length N for an array
    of length N, a zero-dimensional value for a scalar.  On a scalar the
    value is a scalar, except that [BPL_lum] hands back the [ndarray] built
    by [np.where], a 0-d array then.  A call of [qD06] returns such a value
    or raises, and raises on invalid [mod] or [SFR] only. *)
Theorem shape_preserving (z : array) :
  (forall logLbreak slope,
      same_kind z (Schechter_log z logLbreak slope))
  /\ (forall logLbreak slopeL slopeH,
      shape (BPL_lum z logLbreak slopeL slopeH) = shape z
      /\ isscalar (BPL_lum z logLbreak slopeL slopeH) = false)
  /\ (forall a b zm nu IMF_norm,
      same_kind z (SH03 z a b zm nu IMF_norm))
  /\ (forall z1 z2 a b c norm IMF_norm,
      same_kind z (HB06 z z1 z2 a b c norm IMF_norm))
  /\ (forall a b zm SFR_norm IMF_norm nGRB0,
      same_kind z (BExp z a b zm SFR_norm IMF_norm nGRB0))
  /\ (forall Zth n_dens,
      same_kind z (S12 z Zth n_dens))
  /\ (forall a b c d IMF_norm,
      same_kind z (Li08 z a b c d IMF_norm))
  /\ (forall a b zm nGRB0 eta0 av_jet_ang,
      same_kind z (BPL_z z a b zm nGRB0 eta0 av_jet_ang))
  /\ (forall a b c d IMF_norm,
      same_kind z (MD14 z a b c d IMF_norm))
  /\ (forall a b c d a_err b_err c_err d_err IMF_norm,
      same_kind z (Rob15 z a b c d a_err b_err c_err d_err IMF_norm))
  /\ (forall SFR mod_ IMF_norm,
      match qD06 z SFR mod_ IMF_norm with
      | Ok v => same_kind z v
      | Raise _ => valid_mod mod_ = false \/ valid_SFR SFR = false
      end)
  /\ (forall a b c d IMF_norm,
      same_kind z (D06 z a b c d IMF_norm)).
Proof.
  repeat split; intros.
  all: try (destruct (qD06_cases z SFR mod_ IMF_norm)
      as [[Hm E]|[[Hm [Hs E]]|[Hm [Hs (a & b & c & d & k & E)]]]];
      rewrite E; auto; (split; [apply D06_shape|now destruct z])).
  all: try (now destruct z).
  all: try (destruct Zth, n_dens; now destruct z).
  - unfold Schechter_log. np_shape z.
  - unfold BPL_lum, BPL_lum_low, BPL_lum_high, where_. np_shape z.
  - unfold SH03. np_shape z.
  - unfold HB06, HB06_low, HB06_mid, HB06_high, where_. np_shape z.
  - unfold BExp, BExp_low, BExp_high, where_. np_shape z.
  - unfold S12, Li08_default, Li08. destruct Zth, n_dens; np_shape z.
  - unfold Li08. np_shape z.
  - unfold BPL_z, BPL_z_low, BPL_z_high, where_. np_shape z.
  - unfold MD14. np_shape z.
  - unfold Rob15. np_shape z.
  - apply D06_shape.
Qed.

(** On a 1-d array a function is its scalar version applied to each
    entry. *)
Ltac np_elementwise := np_fuse; now rewrite flat_map_singleton.

Lemma Schechter_log_elementwise (zs : list F) (logLbreak slope : F) :
  Schechter_log (Arr1 zs) logLbreak slope
  = Arr1 (flat_map
            (fun z => ravel (Schechter_log (Scalar z) logLbreak slope)) zs).
Proof. unfold Schechter_log, np_exp. np_elementwise. Qed.

Lemma BPL_lum_elementwise (zs : list F) (logLbreak slopeL slopeH : F) :
  BPL_lum (Arr1 zs) logLbreak slopeL slopeH
  = Arr1 (flat_map
            (fun z => ravel (BPL_lum (Scalar z) logLbreak slopeL slopeH)) zs).
Proof. unfold BPL_lum, BPL_lum_low, BPL_lum_high, where_. np_elementwise. Qed.

Lemma SH03_elementwise (zs : list F) (a b zm nu IMF_norm : F) :
  SH03 (Arr1 zs) a b zm nu IMF_norm
  = Arr1 (flat_map (fun z => ravel (SH03 (Scalar z) a b zm nu IMF_norm)) zs).
Proof. unfold SH03, np_exp. np_elementwise. Qed.

Lemma HB06_elementwise (zs : list F) (z1 z2 a b c norm IMF_norm : F) :
  HB06 (Arr1 zs) z1 z2 a b c norm IMF_norm
  = Arr1 (flat_map
            (fun z => ravel (HB06 (Scalar z) z1 z2 a b c norm IMF_norm)) zs).
Proof.
  unfold HB06, HB06_low, HB06_mid, HB06_high, where_. np_elementwise.
Qed.

Lemma BExp_elementwise (zs : list F) (a b zm SFR_norm IMF_norm : F)
    (nGRB0 : option F) :
  BExp (Arr1 zs) a b zm SFR_norm IMF_norm nGRB0
  = Arr1 (flat_map
            (fun z => ravel (BExp (Scalar z) a b zm SFR_norm IMF_norm nGRB0))
            zs).
Proof. unfold BExp, BExp_low, BExp_high, np_exp, where_. np_elementwise. Qed.

Lemma Li08_elementwise (zs : list F) (a b c d IMF_norm : F) :
  Li08 (Arr1 zs) a b c d IMF_norm
  = Arr1 (flat_map (fun z => ravel (Li08 (Scalar z) a b c d IMF_norm)) zs).
Proof. unfold Li08. np_elementwise. Qed.

Lemma S12_elementwise (zs : list F) (Zth n_dens : option F) :
  S12 (Arr1 zs) Zth n_dens
  = Arr1 (flat_map (fun z => ravel (S12 (Scalar z) Zth n_dens)) zs).
Proof.
  unfold S12, Li08_default, Li08. destruct Zth, n_dens; np_elementwise.
Qed.

Lemma BPL_z_elementwise (zs : list F) (a b zm nGRB0 eta0 av_jet_ang : F) :
  BPL_z (Arr1 zs) a b zm nGRB0 eta0 av_jet_ang
  = Arr1 (flat_map
            (fun z => ravel (BPL_z (Scalar z) a b zm nGRB0 eta0 av_jet_ang))
            zs).
Proof. unfold BPL_z, BPL_z_low, BPL_z_high, where_. np_elementwise. Qed.

Lemma MD14_elementwise (zs : list F) (a b c d IMF_norm : F) :
  MD14 (Arr1 zs) a b c d IMF_norm
  = Arr1 (flat_map (fun z => ravel (MD14 (Scalar z) a b c d IMF_norm)) zs).
Proof. unfold MD14. np_elementwise. Qed.

Lemma D06_elementwise (zs : list F) (a b c d IMF_norm : F) :
  D06 (Arr1 zs) a b c d IMF_norm
  = Arr1 (flat_map (fun z => ravel (D06 (Scalar z) a b c d IMF_norm)) zs).
Proof. unfold D06, np_exp. np_elementwise. Qed.

End Shapes.

(** ** Values, in exact real arithmetic *)

Import Exact.

Local Open Scope R_scope.

Arguments Exact.div : simpl never.
Arguments Exact.pow : simpl never.
Arguments Exact.le : simpl never.
Arguments Exact.ge : simpl never.
Arguments Q2R : simpl never.

Lemma div_defined (x y : R) : y <> 0 -> div (Some x) (Some y) = Some (x / y).
Proof.
  intros Hy. unfold div. now destruct (Req_dec_T y 0).
Qed.

Lemma pow_positive_base (x y : R) :
  0 < x -> pow (Some x) (Some y) = Some (Rpower x y).
Proof.
  intros Hx. unfold pow. now destruct (Rlt_dec 0 x).
Qed.

Lemma pow_zero_base (y : R) : 0 < y -> pow (Some 0) (Some y) = Some 0.
Proof.
  intros Hy. unfold pow.
  destruct (Rlt_dec 0 0) as [C|_]; [lra|].
  destruct (Req_dec_T 0 0) as [_|C]; [|lra].
  now destruct (Rlt_dec 0 y).
Qed.

Lemma le_true (x y : R) : x <= y -> le (Some x) (Some y) = true.
Proof. intros Hxy. unfold le. now destruct (Rle_dec x y). Qed.

Lemma le_false (x y : R) : y < x -> le (Some x) (Some y) = false.
Proof. intros Hxy. unfold le. destruct (Rle_dec x y); [lra|reflexivity]. Qed.

Lemma ge_true (x y : R) : y <= x -> ge (Some x) (Some y) = true.
Proof. intros Hxy. unfold ge. now destruct (Rle_dec y x). Qed.

Lemma ge_false (x y : R) : x < y -> ge (Some x) (Some y) = false.
Proof. intros Hxy. unfold ge. destruct (Rle_dec y x); [lra|reflexivity]. Qed.

Lemma Rpower_one_base (y : R) : Rpower 1 y = 1.
Proof. unfold Rpower. now rewrite ln_1, Rmult_0_r, exp_0. Qed.

Lemma Rpower_positive (x y : R) : 0 < Rpower x y.
Proof. unfold Rpower. apply exp_pos. Qed.

Lemma Rpower_split (x a b : R) : Rpower x b * Rpower x (a - b) = Rpower x a.
Proof. rewrite <- Rpower_plus. f_equal. lra. Qed.

Lemma exp_minus_one_lt_one : exp (- 1) < 1.
Proof.
  pose proof (exp_increasing (- 1) 0) as Hlt.
  rewrite exp_0 in Hlt. apply Hlt. lra.
Qed.

(** Reads a decimal literal as the fraction it spells. *)
Ltac literals :=
  repeat match goal with
    | |- context [Q2R ?q] =>
        let q' := eval cbv in q in
        change (Q2R q) with (IZR (Qnum q') * / IZR (Zpos (Qden q')));
        cbn [Qnum Qden]
    end.

Section Schechter.

(** The value of [Schechter_log] on reals. *)
Lemma Schechter_log_value (logL logLbreak slope : R) :
  Schechter_log (Scalar (Some logL)) (Some logLbreak) (Some slope)
  = Scalar (Some (let x := Rpower 10 (logL - logLbreak) in
                  Rpower x (1 - slope) * exp (- x))).
Proof.
  unfold Schechter_log, np_exp. cbn.
  replace (Q2R 10) with 10 by (literals; lra).
  replace (Q2R 1) with 1 by (literals; lra).
  rewrite pow_positive_base by lra.
  rewrite pow_positive_base by apply Rpower_positive.
  reflexivity.
Qed.

(** C1, as amended: at the break [Schechter_log] returns [exp(-1)], for
    every slope and every [logLbreak], the factor [x^(1-slope)] being [1]
    there; in general it returns [x^(1-slope) * exp(-x)] with
    [x = 10^(logL - logLbreak)]. *)
Theorem Schechter_log_at_break (logL logLbreak slope : R) :
  Schechter_log (Scalar (Some logLbreak)) (Some logLbreak) (Some slope)
  = Scalar (Some (exp (- 1)))
  /\ Schechter_log (Scalar (Some logL)) (Some logLbreak) (Some slope)
     = Scalar (Some (Rpower (Rpower 10 (logL - logLbreak)) (1 - slope)
                     * exp (- Rpower 10 (logL - logLbreak)))).
Proof.
  split; rewrite Schechter_log_value; cbv zeta; [|reflexivity].
  rewrite Rminus_diag, Rpower_O by lra.
  rewrite Rpower_one_base, Rmult_1_l. reflexivity.
Qed.

(** C1, as stated, fails: with [logL = logLbreak = 52.5] and slope [1.5]
    the value is not [1.0]. *)
Lemma Schechter_log_at_break_not_one :
  Schechter_log (Scalar (lit 52.5)) (lit 52.5) (lit 1.5) <> Scalar (lit 1).
Proof.
  cbn [lit float].
  rewrite Schechter_log_value. cbv zeta.
  rewrite Rminus_diag, Rpower_O, Rpower_one_base by lra.
  intros C. injection C as C.
  assert (Hlt : exp (Ropp 1) < 1) by exact exp_minus_one_lt_one.
  revert C. literals. lra.
Qed.

End Schechter.

(** ** Continuity at the breaks *)

Section Breaks.

(** C4: at its break each piecewise function has two branch expressions
    of one value: [1] in [BPL_lum] at [logL = logLbreak]; [exp(a*zm)] in
    [BExp] at [z = zm]; [(1+zm)^a] in [BPL_z] at [z = zm]; and in [HB06]
    the first two segments agree at [z1], the last two at [z2].  The
    slopes and exponents are arbitrary reals; the redshift breaks of the
    power laws lie above [-1], so that [1+z] is a positive base. *)
Theorem branches_agree_at_breaks
    (logLbreak slopeL slopeH a b c zm : R) (zb z1 z2 : R) :
  -1 < zb -> -1 < z1 -> -1 < z2 ->
  (BPL_lum_low
     (Scalar (lit 10) ** (Scalar (Some logLbreak) - Scalar (Some logLbreak)))%np
     (Some slopeL) = Scalar (Some 1)
   /\ BPL_lum_high
        (Scalar (lit 10) ** (Scalar (Some logLbreak) - Scalar (Some logLbreak)))%np
        (Some slopeH) = Scalar (Some 1))
  /\ (BExp_low (Scalar (Some zm)) (Some a) = Scalar (Some (exp (a * zm)))
      /\ BExp_high (Scalar (Some zm)) (Some a) (Some b) (Some zm)
         = Scalar (Some (exp (a * zm))))
  /\ (BPL_z_low (Scalar (Some zb)) (Some a) = Scalar (Some (Rpower (1 + zb) a))
      /\ BPL_z_high (Scalar (Some zb)) (Some a) (Some b) (Some zb)
         = Scalar (Some (Rpower (1 + zb) a)))
  /\ (HB06_low (Scalar (Some z1)) (Some a) = Scalar (Some (Rpower (1 + z1) a))
      /\ HB06_mid (Scalar (Some z1)) (Some z1) (Some a) (Some b)
         = Scalar (Some (Rpower (1 + z1) a)))
  /\ (HB06_mid (Scalar (Some z2)) (Some z1) (Some a) (Some b)
      = Scalar (Some (Rpower (1 + z2) b * Rpower (1 + z1) (a - b)))
      /\ HB06_high (Scalar (Some z2)) (Some z1) (Some z2) (Some a) (Some b) (Some c)
         = Scalar (Some (Rpower (1 + z2) b * Rpower (1 + z1) (a - b)))).
Proof.
  intros Hzb Hz1 Hz2.
  unfold BPL_lum_low, BPL_lum_high, BExp_low, BExp_high, BPL_z_low, BPL_z_high,
    HB06_low, HB06_mid, HB06_high, np_exp.
  cbn.
  replace (Q2R 10) with 10 by (literals; lra).
  replace (Q2R 1) with 1 by (literals; lra).
  rewrite !pow_positive_base by lra. cbn.
  rewrite Rminus_diag, Rpower_O by lra.
  rewrite !pow_positive_base by lra.
  cbn. rewrite !Rpower_one_base, !Rpower_split.
  repeat split.
  rewrite <- exp_plus. do 3 f_equal. lra.
Qed.

(** The theorem at the default breaks of [BPL_z] and [HB06]. *)
Lemma branches_agree_at_default_breaks :
  (-1 < 3.11 /\ -1 < 0.97 /\ -1 < 4.48)
  /\ BPL_z_low (Scalar (Some 3.11)) (Some 2.07)
     = BPL_z_high (Scalar (Some 3.11)) (Some 2.07) (Some (-1.36)) (Some 3.11)
  /\ HB06_low (Scalar (Some 0.97)) (Some 3.44)
     = HB06_mid (Scalar (Some 0.97)) (Some 0.97) (Some 3.44) (Some (-0.26))
  /\ HB06_mid (Scalar (Some 4.48)) (Some 0.97) (Some 3.44) (Some (-0.26))
     = HB06_high (Scalar (Some 4.48)) (Some 0.97) (Some 4.48)
         (Some 3.44) (Some (-0.26)) (Some (-7.8)).
Proof.
  assert (Hzb : -1 < 3.11) by lra.
  assert (Hz1 : -1 < 0.97) by lra.
  assert (Hz2 : -1 < 4.48) by lra.
  split; [now repeat split|].
  destruct (branches_agree_at_breaks 52.5 1 2 3.44 (-0.26) (-7.8) 1.9 Hzb Hz1 Hz2)
    as (_ & _ & _ & [E1 E2] & [E3 E4]).
  destruct (branches_agree_at_breaks 52.5 1 2 2.07 (-1.36) (-7.8) 1.9 Hzb Hz1 Hz2)
    as (_ & _ & [E5 E6] & _).
  rewrite E1, E2, E3, E4, E5, E6. now repeat split.
Defined.

(** With the selection read off, the functions at their breaks. *)
Lemma BPL_lum_at_break (logLbreak slopeL slopeH : R) :
  BPL_lum (Scalar (Some logLbreak)) (Some logLbreak) (Some slopeL) (Some slopeH)
  = Arr0 (Some 1).
Proof.
  unfold BPL_lum, BPL_lum_low, BPL_lum_high, where_. cbn.
  replace (Q2R 10) with 10 by (literals; lra).
  replace (Q2R 1) with 1 by (literals; lra).
  rewrite pow_positive_base by lra.
  rewrite Rminus_diag, Rpower_O by lra.
  rewrite !pow_positive_base by lra.
  rewrite !Rpower_one_base. now destruct (le (Some 1) (Some 1)).
Qed.

(** C8, as stated, fails: on the scalar [52.5] (with [logLbreak = 52.5] and
    slopes [1.5], [2.5]) [BPL_lum] returns the 0-d array [array(1.)], which
    is no scalar. *)
Lemma BPL_lum_scalar_gives_array :
  isscalar (Scalar (lit 52.5) : ndarray num) = true
  /\ BPL_lum (Scalar (lit 52.5)) (lit 52.5) (lit 1.5) (lit 2.5) = Arr0 (Some 1)
  /\ isscalar (BPL_lum (Scalar (lit 52.5)) (lit 52.5) (lit 1.5) (lit 2.5))
     = false.
Proof.
  cbn [lit float]. rewrite BPL_lum_at_break. now repeat split.
Qed.

End Breaks.

(** ** Positivity of the rates *)

Ltac positivity :=
  repeat first
    [ lra | nra | apply exp_pos | apply Rpower_positive
    | apply Rdiv_lt_0_compat | apply Rinv_0_lt_compat
    | apply Rmult_lt_0_compat | apply Rplus_lt_0_compat ].

Section Positivity.

Local Notation "'positive'" := (entries (fun v => 0 < v)).

Lemma entries_scalar (P : R -> Prop) (x : R) :
  P x -> entries P (Scalar (Some x)).
Proof. intros Hx. constructor; [now exists x|constructor]. Qed.

(** A fact about the scalar version of a function carries over to every
    entry of an array. *)
Lemma entries_lift (f : ndarray num -> ndarray num) (P Q : R -> Prop) :
  (forall x, f (Arr0 x) = f (Scalar x)) ->
  (forall zs, f (Arr1 zs) = Arr1 (flat_map (fun z => ravel (f (Scalar z))) zs)) ->
  (forall x, P x -> entries Q (f (Scalar (Some x)))) ->
  forall z, entries P z -> entries Q (f z).
Proof.
  intros H0 H1 Hs z Hz. unfold entries in *.
  destruct z as [x|x|zs]; cbn in Hz.
  - inversion Hz as [|? ? (r & -> & Hr) _]; subst. now apply Hs.
  - rewrite H0. inversion Hz as [|? ? (r & -> & Hr) _]; subst. now apply Hs.
  - rewrite H1. cbn. induction Hz as [|e zs (r & -> & Hr) _ IH]; cbn.
    + constructor.
    + apply Forall_app. split; [now apply Hs|exact IH].
Qed.

Lemma pow_nonneg_base (x y : R) :
  0 <= x -> 0 < y -> exists p, pow (Some x) (Some y) = Some p /\ 0 <= p.
Proof.
  intros [Hx| <-] Hy.
  - rewrite pow_positive_base by assumption. eexists; split; [reflexivity|].
    left. apply Rpower_positive.
  - rewrite pow_zero_base by assumption. exists 0. split; [reflexivity|lra].
Qed.

(** [SH03]: the denominator [(a-b) + b*exp(..)] is positive when
    [0 < b < a]. *)
Lemma SH03_pos (z a b zm nu IMF_norm : R) :
  0 < b -> b < a -> 0 < nu -> 0 < IMF_norm ->
  positive
    (SH03 (Scalar (Some z)) (Some a) (Some b) (Some zm) (Some nu) (Some IMF_norm)).
Proof.
  intros Hb Hab Hnu Hi. unfold SH03, np_exp. cbn.
  rewrite div_defined by (apply Rgt_not_eq; positivity).
  cbn. apply entries_scalar. positivity.
Qed.

(** [BExp] with [nGRB0] unset: a product of exponentials; no division. *)
Lemma BExp_pos (z a b zm SFR_norm IMF_norm : R) :
  0 < SFR_norm -> 0 < IMF_norm ->
  positive
    (BExp (Scalar (Some z)) (Some a) (Some b) (Some zm) (Some SFR_norm)
       (Some IMF_norm) None).
Proof.
  intros Hs Hi. unfold BExp, BExp_low, BExp_high, np_exp, where_. cbn.
  destruct (le (Some z) (Some zm)); cbn; apply entries_scalar; positivity.
Qed.

(** [Li08]: on [z >= 0] the denominator [1 + (z/c)^d] is at least [1]. *)
Lemma Li08_pos (z a b c d IMF_norm : R) :
  0 <= z -> 0 < a -> 0 <= b -> 0 < c -> 0 < d -> 0 < IMF_norm ->
  positive
    (Li08 (Scalar (Some z)) (Some a) (Some b) (Some c) (Some d) (Some IMF_norm)).
Proof.
  intros Hz Ha Hb Hc Hd Hi. unfold Li08. cbn.
  rewrite div_defined by lra.
  destruct (pow_nonneg_base (x := z / c) (y := d)) as (p & -> & Hp);
    [apply Rle_mult_inv_pos; lra | lra |].
  cbn. replace (Q2R 1) with 1 by (literals; lra).
  rewrite div_defined by lra.
  apply entries_scalar. positivity.
Qed.

(** [BPL_z]: powers of the positive [1+z], and the divisor
    [eta0*av_jet_ang] of the norm is positive. *)
Lemma BPL_z_pos (z a b zm nGRB0 eta0 av_jet_ang : R) :
  -1 < z -> -1 < zm -> 0 < nGRB0 -> 0 < eta0 -> 0 < av_jet_ang ->
  positive
    (BPL_z (Scalar (Some z)) (Some a) (Some b) (Some zm) (Some nGRB0)
       (Some eta0) (Some av_jet_ang)).
Proof.
  intros Hz Hzm Hn He Hj. unfold BPL_z, BPL_z_low, BPL_z_high, where_. cbn.
  replace (Q2R 1) with 1 by (literals; lra).
  rewrite div_defined by nra.
  rewrite !pow_positive_base by lra.
  destruct (le (Some z) (Some zm)); cbn; apply entries_scalar; positivity.
Qed.

(** [MD14]: the denominator [1 + ((1+z)/c)^d] exceeds [1]. *)
Lemma MD14_pos (z a b c d IMF_norm : R) :
  -1 < z -> 0 < a -> 0 < c -> 0 < IMF_norm ->
  positive
    (MD14 (Scalar (Some z)) (Some a) (Some b) (Some c) (Some d) (Some IMF_norm)).
Proof.
  intros Hz Ha Hc Hi. unfold MD14. cbn.
  replace (Q2R 1) with 1 by (literals; lra).
  rewrite div_defined by lra.
  rewrite !pow_positive_base by positivity.
  cbn. rewrite div_defined by (apply Rgt_not_eq; positivity).
  apply entries_scalar. positivity.
Qed.

(** The formulas over the reals, where nothing overflows or underflows: on
    [z >= 0] the six formulas with the default parameters have a strictly
    positive value, every denominator being strictly positive.  What the
    doubles make of it is [rates_positive_in_range] below. *)
Theorem rates_positive (z : ndarray num) :
  entries (fun x => 0 <= x) z ->
  positive (SH03_default z)
  /\ positive (BExp_default z)
  /\ positive (Li08_default z)
  /\ positive (BPL_z_default z)
  /\ positive (MD14_default z)
  /\ positive (Rob15_default z).
Proof.
  intros Hz.
  repeat split; revert z Hz; apply entries_lift; try reflexivity;
    try (intros zs; first
           [ apply SH03_elementwise | apply BExp_elementwise
           | apply Li08_elementwise | apply BPL_z_elementwise
           | apply MD14_elementwise ]);
    intros x Hx.
  - apply SH03_pos; literals; lra.
  - apply BExp_pos; literals; lra.
  - apply Li08_pos; literals; lra.
  - apply BPL_z_pos; literals; lra.
  - apply MD14_pos; literals; lra.
  - apply (MD14_pos (z := x)); literals; lra.
Qed.

(** The same on the array [[0., 2.5]]. *)
Lemma rates_positive_example :
  entries (fun x => 0 <= x) (Arr1 [Some 0; Some 2.5])
  /\ positive (SH03_default (Arr1 [Some 0; Some 2.5]))
  /\ positive (Li08_default (Arr1 [Some 0; Some 2.5])).
Proof.
  assert (Hz : entries (fun x => 0 <= x) (Arr1 [Some 0; Some 2.5])).
  { repeat constructor; eexists; (split; [reflexivity|lra]). }
  split; [exact Hz|].
  destruct (rates_positive Hz) as (H1 & _ & H3 & _).
  now split.
Defined.

End Positivity.

(** ** The functions at work *)

Section Examples.

(** [BPL_z(0.)] with the defaults is the local rate [nGRB0]. *)
Example BPL_z_default_at_0 :
  BPL_z_default (Scalar (Some 0)) = Scalar (Some (1.3e-9 / (1 * 1) * 1)).
Proof.
  unfold BPL_z_default, BPL_z, BPL_z_low, BPL_z_high, where_. cbn.
  rewrite div_defined by lra.
  rewrite !pow_positive_base by lra.
  rewrite le_true by lra. cbn.
  replace (Q2R 1 + 0) with 1 by (literals; lra). rewrite Rpower_one_base.
  do 2 f_equal. literals. lra.
Qed.

(** Past its break [BPL_z] takes the second branch. *)
Example BPL_z_default_at_4 :
  BPL_z_default (Scalar (Some 4))
  = Scalar (Some (1.3e-9 / (1 * 1)
                  * (Rpower (1 + 4) (-1.36) * Rpower (1 + 3.11) (2.07 - -1.36)))).
Proof.
  unfold BPL_z_default, BPL_z, BPL_z_low, BPL_z_high, where_. cbn.
  rewrite div_defined by lra.
  rewrite !pow_positive_base by lra.
  rewrite le_false by lra. cbn.
  replace (Q2R 1) with 1 by (literals; lra).
  do 3 f_equal. literals. lra.
Qed.

(** Each segment of [HB06] in turn, with the default breaks [0.97] and
    [4.48]: the second [np.where] overrides the first from [z2] on. *)
Example HB06_default_segments :
  HB06_default (Scalar (Some 0.5))
  = Scalar (Some (0.0197 * Rpower (1 + 0.5) 3.44))
  /\ HB06_default (Scalar (Some 2))
     = Scalar (Some (0.0197
                     * (Rpower (1 + 2) (-0.26)
                        * Rpower (1 + 0.97) (3.44 - -0.26))))
  /\ HB06_default (Scalar (Some 5))
     = Scalar (Some (0.0197
                     * (Rpower (1 + 5) (-7.8)
                        * Rpower (1 + 4.48) (-0.26 - -7.8)
                        * Rpower (1 + 0.97) (3.44 - -0.26)))).
Proof.
  unfold HB06_default, HB06, HB06_low, HB06_mid, HB06_high, where_. cbn.
  replace (Q2R 1) with 1 by (literals; lra).
  rewrite !pow_positive_base by lra.
  rewrite (le_true (x := 0.5)), (ge_false (x := 0.5)) by lra.
  rewrite (le_false (x := 2)), (ge_false (x := 2)) by lra.
  rewrite (le_false (x := 5)), (ge_true (x := 5)) by lra.
  now repeat split.
Qed.

(** [Li08(0.)]: the power [(0/c)^d] is [0], the denominator [1]. *)
Example Li08_default_at_0 :
  Li08_default (Scalar (Some 0)) = Scalar (Some (0.007422 * 0.0157)).
Proof.
  unfold Li08_default, Li08. cbn.
  rewrite div_defined by (literals; lra).
  replace (0 / Q2R 3.23) with 0 by (literals; lra).
  rewrite pow_zero_base by (literals; lra). cbn.
  rewrite div_defined by (literals; lra).
  do 2 f_equal. literals. lra.
Qed.

(** A division by zero has no value: [BPL_z] with [eta0 = 0]. *)
Example BPL_z_zero_efficiency :
  BPL_z (Scalar (Some 1)) (lit 2.07) (lit (-1.36)) (lit 3.11) (lit 1.3e-9)
    (Some 0) (Some 1)
  = Scalar None.
Proof.
  unfold BPL_z, BPL_z_low, BPL_z_high, where_. cbn.
  unfold div at 1. rewrite Rmult_0_l.
  destruct (Req_dec_T 0 0) as [_|C]; [|lra].
  now destruct (le _ _).
Qed.

(** An array goes through entry by entry, an invalid preset raises. *)
Example qD06_on_array :
  (exists v, qD06_default (Arr1 [Some 0; Some 1; Some 2]) 2 = Ok v
             /\ shape v = [3%nat])
  /\ qD06_default (Arr1 [Some 0; Some 1; Some 2]) 0 = Raise SFR_error
  /\ qD06 (Arr1 [Some 0; Some 1; Some 2]) 0 "B" (lit 0.0122) = Raise mod_error.
Proof.
  repeat split. eexists. split; reflexivity.
Qed.

End Examples.

(** ** Further properties of the twelve functions *)

(** *** Arrays, entry by entry *)

Section Entrywise.

Context {F : Type} `{Float F} `{Special F}.

(** On a 1-d array each function that returns a value computes every
    entry from the corresponding entry of the independent variable alone,
    by its scalar version, in order; an empty array gives an empty array. *)
Theorem functions_elementwise (zs : list F) :
  (forall logLbreak slope,
      Schechter_log (Arr1 zs) logLbreak slope
      = Arr1 (flat_map
                (fun z => ravel (Schechter_log (Scalar z) logLbreak slope)) zs))
  /\ (forall logLbreak slopeL slopeH,
      BPL_lum (Arr1 zs) logLbreak slopeL slopeH
      = Arr1 (flat_map
                (fun z => ravel (BPL_lum (Scalar z) logLbreak slopeL slopeH)) zs))
  /\ (forall a b zm nu IMF_norm,
      SH03 (Arr1 zs) a b zm nu IMF_norm
      = Arr1 (flat_map (fun z => ravel (SH03 (Scalar z) a b zm nu IMF_norm)) zs))
  /\ (forall z1 z2 a b c norm IMF_norm,
      HB06 (Arr1 zs) z1 z2 a b c norm IMF_norm
      = Arr1 (flat_map
                (fun z => ravel (HB06 (Scalar z) z1 z2 a b c norm IMF_norm)) zs))
  /\ (forall a b zm SFR_norm IMF_norm nGRB0,
      BExp (Arr1 zs) a b zm SFR_norm IMF_norm nGRB0
      = Arr1 (flat_map
                (fun z => ravel (BExp (Scalar z) a b zm SFR_norm IMF_norm nGRB0))
                zs))
  /\ (forall Zth n_dens,
      S12 (Arr1 zs) Zth n_dens
      = Arr1 (flat_map (fun z => ravel (S12 (Scalar z) Zth n_dens)) zs))
  /\ (forall a b c d IMF_norm,
      Li08 (Arr1 zs) a b c d IMF_norm
      = Arr1 (flat_map (fun z => ravel (Li08 (Scalar z) a b c d IMF_norm)) zs))
  /\ (forall a b zm nGRB0 eta0 av_jet_ang,
      BPL_z (Arr1 zs) a b zm nGRB0 eta0 av_jet_ang
      = Arr1 (flat_map
                (fun z => ravel (BPL_z (Scalar z) a b zm nGRB0 eta0 av_jet_ang))
                zs))
  /\ (forall a b c d IMF_norm,
      MD14 (Arr1 zs) a b c d IMF_norm
      = Arr1 (flat_map (fun z => ravel (MD14 (Scalar z) a b c d IMF_norm)) zs))
  /\ (forall a b c d a_err b_err c_err d_err IMF_norm,
      Rob15 (Arr1 zs) a b c d a_err b_err c_err d_err IMF_norm
      = Arr1 (flat_map
                (fun z =>
                   ravel (Rob15 (Scalar z) a b c d a_err b_err c_err d_err IMF_norm))
                zs))
  /\ (forall a b c d IMF_norm,
      D06 (Arr1 zs) a b c d IMF_norm
      = Arr1 (flat_map (fun z => ravel (D06 (Scalar z) a b c d IMF_norm)) zs)).
Proof.
  repeat split; intros.
  - apply Schechter_log_elementwise.
  - apply BPL_lum_elementwise.
  - apply SH03_elementwise.
  - apply HB06_elementwise.
  - apply BExp_elementwise.
  - apply S12_elementwise.
  - apply Li08_elementwise.
  - apply BPL_z_elementwise.
  - apply MD14_elementwise.
  - apply (MD14_elementwise zs a b c d IMF_norm).
  - apply D06_elementwise.
Qed.

End Entrywise.

(** *** Monotone tools *)

Lemma exp_le (x y : R) : x <= y -> exp x <= exp y.
Proof.
  intros [Hlt| ->]; [left; now apply exp_increasing|right; reflexivity].
Qed.

Lemma ln_le_compat (x y : R) : 0 < x -> x <= y -> ln x <= ln y.
Proof.
  intros Hx [Hlt| ->]; [left; now apply ln_increasing|right; reflexivity].
Qed.

(** A nonnegative power grows with its base, a nonpositive one falls. *)
Lemma Rpower_monotone (x y a : R) :
  0 <= a -> 0 < x -> x <= y -> Rpower x a <= Rpower y a.
Proof.
  intros Ha Hx Hxy. unfold Rpower. apply exp_le.
  apply Rmult_le_compat_l; [exact Ha|now apply ln_le_compat].
Qed.

Lemma Rpower_antitone (x y b : R) :
  b <= 0 -> 0 < x -> x <= y -> Rpower y b <= Rpower x b.
Proof.
  intros Hb Hx Hxy. unfold Rpower. apply exp_le.
  pose proof (ln_le_compat Hx Hxy) as Hln. nra.
Qed.

(** *** The piecewise functions, branch by branch *)

Section Piecewise.

(** The value of [BExp] on reals, with [nGRB0] unset. *)
Lemma BExp_value (z a b zm SFR_norm IMF_norm : R) :
  BExp (Scalar (Some z)) (Some a) (Some b) (Some zm) (Some SFR_norm)
    (Some IMF_norm) None
  = Scalar (Some (IMF_norm * SFR_norm
                  * (if Rle_dec z zm then exp (a * z)
                     else exp (b * z) * exp ((a - b) * zm)))).
Proof.
  unfold BExp, BExp_low, BExp_high, np_exp, where_. cbn.
  unfold le. now destruct (Rle_dec z zm).
Qed.

(** The value of [BPL_z] on reals. *)
Lemma BPL_z_value (z a b zm nGRB0 eta0 av_jet_ang : R) :
  -1 < z -> -1 < zm -> eta0 * av_jet_ang <> 0 ->
  BPL_z (Scalar (Some z)) (Some a) (Some b) (Some zm) (Some nGRB0)
    (Some eta0) (Some av_jet_ang)
  = Scalar (Some (nGRB0 / (eta0 * av_jet_ang)
                  * (if Rle_dec z zm then Rpower (1 + z) a
                     else Rpower (1 + z) b * Rpower (1 + zm) (a - b)))).
Proof.
  intros Hz Hzm Hd. unfold BPL_z, BPL_z_low, BPL_z_high, where_. cbn.
  replace (Q2R 1) with 1 by (literals; lra).
  rewrite div_defined by assumption.
  rewrite !pow_positive_base by lra.
  unfold le. now destruct (Rle_dec z zm).
Qed.

(** The value of [BPL_lum] on reals. *)
Lemma BPL_lum_value (logL logLbreak slopeL slopeH : R) :
  BPL_lum (Scalar (Some logL)) (Some logLbreak) (Some slopeL) (Some slopeH)
  = Arr0 (Some (let x := Rpower 10 (logL - logLbreak) in
                if Rle_dec x 1 then Rpower x (1 - slopeL)
                else Rpower x (1 - slopeH))).
Proof.
  unfold BPL_lum, BPL_lum_low, BPL_lum_high, where_. cbn.
  replace (Q2R 10) with 10 by (literals; lra).
  replace (Q2R 1) with 1 by (literals; lra).
  rewrite pow_positive_base by lra.
  rewrite !pow_positive_base by apply Rpower_positive.
  unfold le. now destruct (Rle_dec (Rpower 10 (logL - logLbreak)) 1).
Qed.

(** The value of [HB06] on reals. *)
Lemma HB06_value (z z1 z2 a b c norm IMF_norm : R) :
  -1 < z -> -1 < z1 -> -1 < z2 ->
  HB06 (Scalar (Some z)) (Some z1) (Some z2) (Some a) (Some b) (Some c)
    (Some norm) (Some IMF_norm)
  = Scalar (Some (norm
                  * (if Rle_dec z2 z
                     then Rpower (1 + z) c * Rpower (1 + z2) (b - c)
                          * Rpower (1 + z1) (a - b)
                     else if Rle_dec z z1 then Rpower (1 + z) a
                     else Rpower (1 + z) b * Rpower (1 + z1) (a - b)))).
Proof.
  intros Hz Hz1 Hz2.
  unfold HB06, HB06_low, HB06_mid, HB06_high, where_. cbn.
  replace (Q2R 1) with 1 by (literals; lra).
  rewrite !pow_positive_base by lra.
  unfold le, ge. now destruct (Rle_dec z2 z), (Rle_dec z z1).
Qed.

(** With the breaks out of order, [z2 <= z1], the second segment of
    [HB06] is never selected: the first holds below [z2], the third from
    [z2] on. *)
Theorem HB06_breaks_out_of_order (z z1 z2 a b c norm IMF_norm : R) :
  -1 < z -> -1 < z1 -> -1 < z2 -> z2 <= z1 ->
  HB06 (Scalar (Some z)) (Some z1) (Some z2) (Some a) (Some b) (Some c)
    (Some norm) (Some IMF_norm)
  = Scalar (Some (norm
                  * (if Rle_dec z2 z
                     then Rpower (1 + z) c * Rpower (1 + z2) (b - c)
                          * Rpower (1 + z1) (a - b)
                     else Rpower (1 + z) a))).
Proof.
  intros Hz Hz1 Hz2 H21. rewrite HB06_value by assumption.
  destruct (Rle_dec z2 z) as [|Hn]; [reflexivity|].
  destruct (Rle_dec z z1) as [|Hm]; [reflexivity|lra].
Qed.

Lemma HB06_breaks_out_of_order_example :
  (-1 < 2 /\ -1 < 3 /\ -1 < 1 /\ 1 <= 3)
  /\ HB06 (Scalar (Some 2)) (Some 3) (Some 1) (Some 3.44) (Some (-0.26))
       (Some (-7.8)) (Some 0.0197) (Some 0.007422)
     = Scalar (Some (0.0197
                     * (Rpower (1 + 2) (-7.8) * Rpower (1 + 1) (-0.26 - -7.8)
                        * Rpower (1 + 3) (3.44 - -0.26)))).
Proof.
  assert (Hz : -1 < 2) by lra.
  assert (Hz1 : -1 < 3) by lra.
  assert (Hz2 : -1 < 1) by lra.
  assert (H21 : 1 <= 3) by lra.
  split; [now repeat split|].
  rewrite (HB06_breaks_out_of_order 3.44 (-0.26) (-7.8) 0.0197 0.007422
             Hz Hz1 Hz2 H21).
  destruct (Rle_dec 1 2) as [_|C]; [reflexivity|lra].
Defined.

(** [BExp] takes the same values when the selection is closed on the other
    side of the break: the second branch holds on all of [zm <= z]. *)
Theorem BExp_either_side (z a b zm SFR_norm IMF_norm : R) :
  BExp (Scalar (Some z)) (Some a) (Some b) (Some zm) (Some SFR_norm)
    (Some IMF_norm) None
  = Scalar (Some (IMF_norm * SFR_norm
                  * (if Rle_dec zm z then exp (b * z) * exp ((a - b) * zm)
                     else exp (a * z)))).
Proof.
  rewrite BExp_value. do 3 f_equal.
  destruct (Rle_dec z zm) as [H1|H1], (Rle_dec zm z) as [H2|H2];
    try reflexivity; try lra.
  assert (z = zm) as -> by lra.
  rewrite <- exp_plus. f_equal. lra.
Qed.

(** So does [BPL_z], for redshifts above [-1]. *)
Theorem BPL_z_either_side (z a b zm nGRB0 eta0 av_jet_ang : R) :
  -1 < z -> -1 < zm -> eta0 * av_jet_ang <> 0 ->
  BPL_z (Scalar (Some z)) (Some a) (Some b) (Some zm) (Some nGRB0)
    (Some eta0) (Some av_jet_ang)
  = Scalar (Some (nGRB0 / (eta0 * av_jet_ang)
                  * (if Rle_dec zm z
                     then Rpower (1 + z) b * Rpower (1 + zm) (a - b)
                     else Rpower (1 + z) a))).
Proof.
  intros Hz Hzm Hd. rewrite BPL_z_value by assumption. do 3 f_equal.
  destruct (Rle_dec z zm) as [H1|H1], (Rle_dec zm z) as [H2|H2];
    try reflexivity; try lra.
  assert (z = zm) as -> by lra.
  now rewrite Rpower_split.
Qed.

Lemma BPL_z_either_side_default :
  (-1 < 3.11 /\ 1 * 1 <> 0)
  /\ BPL_z (Scalar (Some 3.11)) (Some 2.07) (Some (-1.36)) (Some 3.11)
       (Some 1.3e-9) (Some 1) (Some 1)
     = Scalar (Some (1.3e-9 / (1 * 1)
                     * (Rpower (1 + 3.11) (-1.36)
                        * Rpower (1 + 3.11) (2.07 - -1.36)))).
Proof.
  assert (Hz : -1 < 3.11) by lra.
  assert (Hd : 1 * 1 <> 0) by lra.
  split; [now split|].
  rewrite (BPL_z_either_side 2.07 (-1.36) 1.3e-9 Hz Hz Hd).
  destruct (Rle_dec 3.11 3.11) as [_|C]; [reflexivity|lra].
Defined.

End Piecewise.

(** *** Where the broken laws peak *)

Section Peaks.

(** With a rising first branch ([a >= 0]) and a falling second one
    ([b <= 0]) [BExp] is nowhere above its value at the break. *)
Theorem BExp_peak_at_break (z a b zm SFR_norm IMF_norm : R) :
  0 <= a -> b <= 0 -> 0 <= IMF_norm * SFR_norm ->
  exists v,
    BExp (Scalar (Some z)) (Some a) (Some b) (Some zm) (Some SFR_norm)
      (Some IMF_norm) None = Scalar (Some v)
    /\ BExp (Scalar (Some zm)) (Some a) (Some b) (Some zm) (Some SFR_norm)
         (Some IMF_norm) None
       = Scalar (Some (IMF_norm * SFR_norm * exp (a * zm)))
    /\ v <= IMF_norm * SFR_norm * exp (a * zm).
Proof.
  intros Ha Hb Hn. rewrite !BExp_value.
  eexists; split; [reflexivity|]. split.
  - destruct (Rle_dec zm zm) as [_|C]; [reflexivity|lra].
  - apply Rmult_le_compat_l; [exact Hn|].
    destruct (Rle_dec z zm) as [H1|H1].
    + apply exp_le. nra.
    + rewrite <- exp_plus. apply exp_le. nra.
Qed.

Lemma BExp_peak_default :
  (0 <= 1.1 /\ -0.57 <= 0 /\ 0 <= 0.007422 * 0.02744)
  /\ exists v,
      BExp (Scalar (Some 5)) (Some 1.1) (Some (-0.57)) (Some 1.9)
        (Some 0.02744) (Some 0.007422) None = Scalar (Some v)
      /\ v <= 0.007422 * 0.02744 * exp (1.1 * 1.9).
Proof.
  assert (Ha : 0 <= 1.1) by lra.
  assert (Hb : -0.57 <= 0) by lra.
  assert (Hn : 0 <= 0.007422 * 0.02744) by lra.
  split; [now repeat split|].
  destruct (BExp_peak_at_break 5 1.9 Ha Hb Hn) as (v & E & _ & Hv).
  now exists v.
Defined.

(** Likewise [BPL_z], with [a >= 0 >= b], peaks at [zm]. *)
Theorem BPL_z_peak_at_break (z a b zm nGRB0 eta0 av_jet_ang : R) :
  -1 < z -> -1 < zm -> 0 <= a -> b <= 0 ->
  0 <= nGRB0 -> 0 < eta0 -> 0 < av_jet_ang ->
  exists v,
    BPL_z (Scalar (Some z)) (Some a) (Some b) (Some zm) (Some nGRB0)
      (Some eta0) (Some av_jet_ang) = Scalar (Some v)
    /\ BPL_z (Scalar (Some zm)) (Some a) (Some b) (Some zm) (Some nGRB0)
         (Some eta0) (Some av_jet_ang)
       = Scalar (Some (nGRB0 / (eta0 * av_jet_ang) * Rpower (1 + zm) a))
    /\ v <= nGRB0 / (eta0 * av_jet_ang) * Rpower (1 + zm) a.
Proof.
  intros Hz Hzm Ha Hb Hn He Hj.
  assert (Hd : eta0 * av_jet_ang <> 0) by nra.
  rewrite !BPL_z_value by assumption.
  eexists; split; [reflexivity|]. split.
  - destruct (Rle_dec zm zm) as [_|C]; [reflexivity|lra].
  - apply Rmult_le_compat_l.
    + apply Rle_mult_inv_pos; [exact Hn|nra].
    + destruct (Rle_dec z zm) as [H1|H1].
      * apply Rpower_monotone; lra.
      * rewrite <- (Rpower_split (1 + zm) a b).
        apply Rmult_le_compat_r; [left; apply Rpower_positive|].
        apply Rpower_antitone; lra.
Qed.

Lemma BPL_z_peak_default :
  (-1 < 6 /\ -1 < 3.11 /\ 0 <= 2.07 /\ -1.36 <= 0 /\ 0 <= 1.3e-9 /\ 0 < 1)
  /\ exists v,
      BPL_z (Scalar (Some 6)) (Some 2.07) (Some (-1.36)) (Some 3.11)
        (Some 1.3e-9) (Some 1) (Some 1) = Scalar (Some v)
      /\ v <= 1.3e-9 / (1 * 1) * Rpower (1 + 3.11) 2.07.
Proof.
  assert (Hz : -1 < 6) by lra.
  assert (Hzm : -1 < 3.11) by lra.
  assert (Ha : 0 <= 2.07) by lra.
  assert (Hb : -1.36 <= 0) by lra.
  assert (Hn : 0 <= 1.3e-9) by lra.
  assert (H1 : 0 < 1) by lra.
  split; [now repeat split|].
  destruct (BPL_z_peak_at_break Hz Hzm Ha Hb Hn H1 H1) as (v & E & _ & Hv).
  now exists v.
Defined.

(** [BPL_lum] with [slopeL <= 1 <= slopeH] is nowhere above [1], its
    value at the break. *)
Theorem BPL_lum_at_most_one (logL logLbreak slopeL slopeH : R) :
  slopeL <= 1 -> 1 <= slopeH ->
  exists v,
    BPL_lum (Scalar (Some logL)) (Some logLbreak) (Some slopeL) (Some slopeH)
    = Arr0 (Some v)
    /\ 0 <= v <= 1.
Proof.
  intros HL HH. rewrite BPL_lum_value. cbv zeta.
  eexists; split; [reflexivity|].
  pose proof (Rpower_positive 10 (logL - logLbreak)) as Hx.
  destruct (Rle_dec (Rpower 10 (logL - logLbreak)) 1) as [H1|H1].
  - split; [left; apply Rpower_positive|].
    apply Rle_trans with (Rpower 1 (1 - slopeL));
      [apply Rpower_monotone; lra|right; apply Rpower_one_base].
  - split; [left; apply Rpower_positive|].
    apply Rle_trans with (Rpower 1 (1 - slopeH));
      [apply Rpower_antitone; lra|right; apply Rpower_one_base].
Qed.

Lemma BPL_lum_at_most_one_example :
  (0.5 <= 1 /\ 1 <= 2.5)
  /\ exists v,
      BPL_lum (Scalar (Some 53)) (Some 52.5) (Some 0.5) (Some 2.5)
      = Arr0 (Some v)
      /\ 0 <= v <= 1.
Proof.
  assert (HL : 0.5 <= 1) by lra.
  assert (HH : 1 <= 2.5) by lra.
  split; [now split|].
  exact (BPL_lum_at_most_one 53 52.5 HL HH).
Defined.

(** [HB06] with breaks in order and exponents [a >= 0 >= b], [c <= 0]
    peaks at its first break. *)
Theorem HB06_peak_at_z1 (z z1 z2 a b c norm IMF_norm : R) :
  -1 < z -> -1 < z1 -> z1 <= z2 -> 0 <= a -> b <= 0 -> c <= 0 -> 0 <= norm ->
  exists v,
    HB06 (Scalar (Some z)) (Some z1) (Some z2) (Some a) (Some b) (Some c)
      (Some norm) (Some IMF_norm) = Scalar (Some v)
    /\ v <= norm * Rpower (1 + z1) a.
Proof.
  intros Hz Hz1 H12 Ha Hb Hc Hn.
  rewrite HB06_value by lra.
  eexists; split; [reflexivity|].
  apply Rmult_le_compat_l; [exact Hn|].
  assert (Hmid : forall x, z1 <= x ->
            Rpower (1 + x) b * Rpower (1 + z1) (a - b) <= Rpower (1 + z1) a).
  { intros x Hx. rewrite <- (Rpower_split (1 + z1) a b).
    apply Rmult_le_compat_r; [left; apply Rpower_positive|].
    apply Rpower_antitone; lra. }
  destruct (Rle_dec z2 z) as [H2|H2]; [|destruct (Rle_dec z z1) as [H1|H1]].
  - apply Rle_trans with (Rpower (1 + z2) b * Rpower (1 + z1) (a - b));
      [|now apply Hmid].
    apply Rmult_le_compat_r; [left; apply Rpower_positive|].
    rewrite <- (Rpower_split (1 + z2) b c), Rmult_comm.
    rewrite (Rmult_comm (Rpower (1 + z2) c)).
    apply Rmult_le_compat_l; [left; apply Rpower_positive|].
    apply Rpower_antitone; lra.
  - apply Rpower_monotone; lra.
  - apply Hmid. lra.
Qed.

Lemma HB06_peak_default :
  (-1 < 7 /\ -1 < 0.97 /\ 0.97 <= 4.48 /\ 0 <= 3.44 /\ -0.26 <= 0
   /\ -7.8 <= 0 /\ 0 <= 0.0197)
  /\ exists v,
      HB06 (Scalar (Some 7)) (Some 0.97) (Some 4.48) (Some 3.44) (Some (-0.26))
        (Some (-7.8)) (Some 0.0197) (Some 0.007422) = Scalar (Some v)
      /\ v <= 0.0197 * Rpower (1 + 0.97) 3.44.
Proof.
  assert (Hz : -1 < 7) by lra.
  assert (Hz1 : -1 < 0.97) by lra.
  assert (H12 : 0.97 <= 4.48) by lra.
  assert (Ha : 0 <= 3.44) by lra.
  assert (Hb : -0.26 <= 0) by lra.
  assert (Hc : -7.8 <= 0) by lra.
  assert (Hn : 0 <= 0.0197) by lra.
  split; [now repeat split|].
  exact (HB06_peak_at_z1 0.007422 Hz Hz1 H12 Ha Hb Hc Hn).
Defined.

End Peaks.

(** *** Normalisations *)

Section Normalisations.

(** At [z = 0] the broken laws return their norm: [IMF_norm*SFR_norm] for
    [BExp], [nGRB0/(eta0*av_jet_ang)] for [BPL_z], [norm] for [HB06],
    provided the breaks are not below [0] (and [z2] above it). *)
Theorem broken_laws_at_zero
    (a b c zm z1 z2 SFR_norm IMF_norm nGRB0 eta0 av_jet_ang norm : R) :
  0 <= zm -> 0 <= z1 -> 0 < z2 -> eta0 * av_jet_ang <> 0 ->
  BExp (Scalar (Some 0)) (Some a) (Some b) (Some zm) (Some SFR_norm)
    (Some IMF_norm) None = Scalar (Some (IMF_norm * SFR_norm))
  /\ BPL_z (Scalar (Some 0)) (Some a) (Some b) (Some zm) (Some nGRB0)
       (Some eta0) (Some av_jet_ang)
     = Scalar (Some (nGRB0 / (eta0 * av_jet_ang)))
  /\ HB06 (Scalar (Some 0)) (Some z1) (Some z2) (Some a) (Some b) (Some c)
       (Some norm) (Some IMF_norm) = Scalar (Some norm).
Proof.
  intros Hzm Hz1 Hz2 Hd.
  rewrite BExp_value, BPL_z_value, HB06_value by lra.
  destruct (Rle_dec 0 zm) as [_|C]; [|lra].
  destruct (Rle_dec z2 0) as [C|_]; [lra|].
  destruct (Rle_dec 0 z1) as [_|C]; [|lra].
  rewrite Rplus_0_r, Rpower_one_base, Rmult_0_r, exp_0, !Rmult_1_r.
  now repeat split.
Qed.

Lemma broken_laws_at_zero_default :
  (0 <= 1.9 /\ 0 <= 0.97 /\ 0 < 4.48 /\ 1 * 1 <> 0)
  /\ BPL_z (Scalar (Some 0)) (Some 2.07) (Some (-1.36)) (Some 1.9)
       (Some 1.3e-9) (Some 1) (Some 1)
     = Scalar (Some (1.3e-9 / (1 * 1))).
Proof.
  assert (Hzm : 0 <= 1.9) by lra.
  assert (Hz1 : 0 <= 0.97) by lra.
  assert (Hz2 : 0 < 4.48) by lra.
  assert (Hd : 1 * 1 <> 0) by lra.
  split; [now repeat split|].
  exact (proj1 (proj2 (broken_laws_at_zero 2.07 (-1.36) (-7.8) 0.02744 0.007422
                         1.3e-9 0.0197 Hzm Hz1 Hz2 Hd))).
Defined.

(** At [z = zm] the shape of [SH03] is [1]: the function returns
    [IMF_norm * nu], whatever [b] is, as long as [a] is not [0]. *)
Theorem SH03_at_zm (a b zm nu IMF_norm : R) :
  a <> 0 ->
  SH03 (Scalar (Some zm)) (Some a) (Some b) (Some zm) (Some nu) (Some IMF_norm)
  = Scalar (Some (IMF_norm * nu)).
Proof.
  intros Ha. unfold SH03, np_exp. cbn.
  rewrite Rminus_diag, !Rmult_0_r, exp_0, !Rmult_1_r.
  rewrite div_defined by lra. cbn.
  do 2 f_equal. field. lra.
Qed.

Lemma SH03_at_zm_default :
  2.37 <> 0
  /\ SH03 (Scalar (Some 2)) (Some 2.37) (Some 1.8) (Some 2) (Some 0.178)
       (Some 0.007422)
     = Scalar (Some (0.007422 * 0.178)).
Proof.
  assert (Ha : 2.37 <> 0) by lra.
  split; [exact Ha|].
  exact (SH03_at_zm 1.8 2 0.178 0.007422 Ha).
Defined.

(** With [a = 0] the shape of [SH03] at [zm] is [0/0]: no value. *)
Theorem SH03_at_zm_degenerate (b zm nu IMF_norm : R) :
  SH03 (Scalar (Some zm)) (Some 0) (Some b) (Some zm) (Some nu) (Some IMF_norm)
  = Scalar None.
Proof.
  unfold SH03, np_exp. cbn.
  rewrite Rminus_diag, !Rmult_0_r, exp_0, !Rmult_1_r.
  unfold div. destruct (Req_dec_T (0 - b + b) 0) as [_|C]; [reflexivity|].
  exfalso. apply C. lra.
Qed.

End Normalisations.

(** *** Where a function has no value *)

Section Undefined.

Lemma div_by_zero (x y : R) : y = 0 -> div (Some x) (Some y) = None.
Proof. intros ->. unfold div. now destruct (Req_dec_T 0 0). Qed.

Lemma pow_negative_base_fraction (x y : R) :
  x < 0 -> IZR (Int_part y) <> y -> pow (Some x) (Some y) = None.
Proof.
  intros Hx Hy. unfold pow.
  destruct (Rlt_dec 0 x) as [C|_]; [lra|].
  destruct (Req_dec_T x 0) as [C|_]; [lra|].
  now destruct (Req_dec_T (IZR (Int_part y)) y).
Qed.

(** [Li08] below [z = 0]: with a positive [c] and an exponent [d] that is
    no integer the power [(z/c)**d] has no real value, and so has the
    result. *)
Theorem Li08_below_zero (z a b c d IMF_norm : R) :
  z < 0 -> 0 < c -> IZR (Int_part d) <> d ->
  Li08 (Scalar (Some z)) (Some a) (Some b) (Some c) (Some d) (Some IMF_norm)
  = Scalar None.
Proof.
  intros Hz Hc Hd. unfold Li08. cbn.
  rewrite div_defined by lra.
  rewrite pow_negative_base_fraction; [reflexivity| |exact Hd].
  apply Ropp_lt_cancel. rewrite Ropp_0.
  replace (- (z / c)) with ((- z) / c) by (field; lra).
  apply Rdiv_lt_0_compat; lra.
Qed.

Lemma Int_part_of_4_66 : Int_part 4.66 = 4%Z.
Proof. symmetry. apply Int_part_spec. lra. Qed.

Lemma Li08_default_below_zero :
  (-0.5 < 0 /\ 0 < 3.23 /\ IZR (Int_part 4.66) <> 4.66)
  /\ Li08_default (Scalar (Some (-0.5))) = Scalar None.
Proof.
  assert (Hz : -0.5 < 0) by lra.
  assert (Hc : 0 < 3.23) by lra.
  assert (Hd : IZR (Int_part 4.66) <> 4.66)
    by (rewrite Int_part_of_4_66; lra).
  split; [now repeat split|].
  exact (Li08_below_zero 0.0157 0.118 0.007422 Hz Hc Hd).
Defined.

(** [BPL_z] with [eta0 * av_jet_ang = 0]: the norm is a division by zero,
    and no entry of the result is a number, whatever [z] is. *)
Theorem BPL_z_zero_divisor (z : ndarray num)
    (a b zm : num) (nGRB0 eta0 av_jet_ang : R) :
  eta0 * av_jet_ang = 0 ->
  Forall (fun e => e = None)
    (ravel (BPL_z z a b zm (Some nGRB0) (Some eta0) (Some av_jet_ang))).
Proof.
  intros Hd. unfold BPL_z, BPL_z_low, BPL_z_high, where_.
  cbn [fdiv fmul float lift2]. rewrite div_by_zero by exact Hd.
  destruct z as [x|x|zs]; np_fuse.
  - now repeat constructor.
  - now repeat constructor.
  - apply Forall_forall. intros e He. apply in_map_iff in He.
    now destruct He as (x & <- & _).
Qed.

Lemma BPL_z_zero_divisor_example :
  0 * 1 = 0
  /\ Forall (fun e => e = None)
       (ravel (BPL_z (Arr1 [Some 0; Some 1]) (Some 2.07) (Some (-1.36))
                 (Some 3.11) (Some 1.3e-9) (Some 0) (Some 1))).
Proof.
  assert (Hd : 0 * 1 = 0) by lra.
  split; [exact Hd|].
  exact (BPL_z_zero_divisor (Arr1 [Some 0; Some 1]) (Some 2.07) (Some (-1.36))
           (Some 3.11) 1.3e-9 Hd).
Defined.

End Undefined.

(** *** How the functions compose *)

Section Composition.

(** Two functions that work entry by entry and agree on scalars agree on
    every value. *)
Lemma ext_lift (A B : Type) (f g : ndarray A -> ndarray B) :
  (forall x, f (Arr0 x) = f (Scalar x)) ->
  (forall x, g (Arr0 x) = g (Scalar x)) ->
  (forall zs, f (Arr1 zs) = Arr1 (flat_map (fun z => ravel (f (Scalar z))) zs)) ->
  (forall zs, g (Arr1 zs) = Arr1 (flat_map (fun z => ravel (g (Scalar z))) zs)) ->
  (forall x, f (Scalar x) = g (Scalar x)) ->
  forall z, f z = g z.
Proof.
  intros Hf0 Hg0 Hf1 Hg1 Hs [x|x|zs].
  - apply Hs.
  - now rewrite Hf0, Hg0.
  - rewrite Hf1, Hg1. f_equal. apply flat_map_ext. intros e. now rewrite Hs.
Qed.

Lemma pow_zero_exponent (x : R) : pow (Some x) (Some 0) = Some 1.
Proof.
  unfold pow.
  destruct (Rlt_dec 0 x) as [Hx|_]; [now rewrite Rpower_O|].
  destruct (Req_dec_T x 0) as [_|_].
  - destruct (Rlt_dec 0 0) as [C|_]; [lra|].
    now destruct (Req_dec_T 0 0).
  - assert (E : Int_part 0 = 0%Z) by (symmetry; apply Int_part_spec; lra).
    rewrite E. now destruct (Req_dec_T 0 0).
Qed.

Lemma lift2_mult_one (v : num) : lift2 Rmult v (Some 1) = v.
Proof. destruct v as [x|]; cbn; [now rewrite Rmult_1_r|reflexivity]. Qed.

Lemma lift2_mult_assoc (u v w : num) :
  lift2 Rmult (lift2 Rmult u v) w = lift2 Rmult u (lift2 Rmult v w).
Proof.
  destruct u, v, w; cbn; try reflexivity. now rewrite Rmult_assoc.
Qed.

(** [S12] with [n_dens = 0] and no [Zth] is [Li08] with its defaults: the
    factor [(1+z)**0] is [1] in every entry. *)
Theorem S12_n_dens_zero `{Special num} (z : ndarray num) :
  S12 z None (Some (lit 0)) = Li08_default z.
Proof.
  revert z.
  apply (ext_lift (fun z => S12 z None (Some (lit 0))) Li08_default);
    try reflexivity.
  - intros zs. apply S12_elementwise.
  - intros zs. apply Li08_elementwise.
  - intros [x|]; [|reflexivity].
    unfold S12. cbn [lit float].
    replace (Q2R 0) with 0 by (literals; lra).
    unfold Li08_default, Li08. cbn.
    now rewrite pow_zero_exponent, lift2_mult_one.
Qed.

(** In [D06] the result is linear in [IMF_norm]. *)
Lemma D06_scaled (z : ndarray num) (a b c d k i : num) :
  D06 z a b c d (lift2 Rmult k i) = (Scalar k * D06 z a b c d i)%np.
Proof.
  unfold D06, np_exp.
  destruct z as [x|x|zs]; np_fuse.
  - now rewrite lift2_mult_assoc.
  - now rewrite lift2_mult_assoc.
  - f_equal. apply map_ext. intros e. now rewrite lift2_mult_assoc.
Qed.

(** The long-GRB rate [qD06] is the core-collapse rate [D06] of the same
    preset and [IMF_norm], times the constant [k_s[SFR-1]] of the mode. *)
Theorem qD06_is_k_times_D06 (z : ndarray num) (i : num) :
  qD06 z 1 "A" i
  = Ok (Scalar (lit 4e-6)
        * D06 z (lit 0.320) (lit 3.30) (lit 3.52) (lit 23.6) i)%np
  /\ qD06 z 2 "A" i
     = Ok (Scalar (lit 3.2e-6)
           * D06 z (lit 0.196) (lit 4.0) (lit 4.0) (lit 14.6) i)%np
  /\ qD06 z 3 "A" i
     = Ok (Scalar (lit 1.2e-6)
           * D06 z (lit 0.175) (lit 3.67) (lit 3.48) (lit 12.6) i)%np
  /\ qD06 z 1 "LN" i
     = Ok (Scalar (lit 2.5e-6)
           * D06 z (lit 0.320) (lit 3.30) (lit 3.52) (lit 23.6) i)%np
  /\ qD06 z 2 "LN" i
     = Ok (Scalar (lit 2e-6)
           * D06 z (lit 0.196) (lit 4.0) (lit 4.0) (lit 14.6) i)%np
  /\ qD06 z 3 "LN" i
     = Ok (Scalar (lit 6.3e-7)
           * D06 z (lit 0.175) (lit 3.67) (lit 3.48) (lit 12.6) i)%np.
Proof.
  destruct (qD06_presets z i) as (E1 & E2 & E3 & E4 & E5 & E6).
  rewrite E1, E2, E3, E4, E5, E6.
  repeat split; f_equal; apply D06_scaled.
Qed.

End Composition.

(** ** The range of doubles *)

Import Double.

Arguments Double.range : simpl never.
Arguments Double.lift2 : simpl never.
Arguments Double.ddiv : simpl never.
Arguments Double.dpow : simpl never.
Arguments Double.dexp : simpl never.
Arguments Double.dle : simpl never.
Arguments Double.dge : simpl never.

Section Thresholds.

Lemma two_le_exp_1 : 2 <= exp 1.
Proof. pose proof (exp_ineq1_le 1). lra. Qed.

Lemma exp_half_le_2 : exp (/ 2) <= 2.
Proof.
  pose proof (exp_pos (/ 2)) as Hp.
  assert (E : exp (/ 2) * exp (/ 2) = exp 1).
  { rewrite <- exp_plus. f_equal. lra. }
  pose proof exp_le_3. nra.
Qed.

Lemma pow2_le_exp (n : nat) : 2 ^ n <= exp (INR n).
Proof.
  induction n as [|n IH]; [cbn; rewrite exp_0; lra|].
  rewrite S_INR, exp_plus, Rmult_comm. cbn [pow].
  apply Rmult_le_compat; [lra|left; apply pow_lt; lra|apply two_le_exp_1|exact IH].
Qed.

Lemma exp_le_pow2 (n : nat) : exp (INR n / 2) <= 2 ^ n.
Proof.
  induction n as [|n IH].
  - cbn. replace (0 / 2) with 0 by lra. rewrite exp_0. lra.
  - rewrite S_INR. replace ((INR n + 1) / 2) with (INR n / 2 + / 2) by lra.
    rewrite exp_plus, Rmult_comm. cbn [pow].
    apply Rmult_le_compat;
      [left; apply exp_pos|left; apply exp_pos|apply exp_half_le_2|exact IH].
Qed.

Lemma INR_literal (n : nat) : INR n = IZR (Z.of_nat n).
Proof. apply INR_IZR_INZ. Qed.

Lemma exp_limit_lt_overflow : exp limit < overflow.
Proof.
  unfold overflow, limit.
  assert (H1 : exp 500 <= 2 ^ 1000).
  { replace 500 with (INR 1000 / 2); [apply exp_le_pow2|].
    rewrite INR_literal. cbn [Z.of_nat Pos.of_succ_nat Pos.succ]. lra. }
  assert (H2 : 2 ^ 1000 < 2 ^ 1023) by (apply Rlt_pow; [lra|lia]).
  assert (H3 : 2 ^ 970 <= 2 ^ 1023) by (apply Rle_pow; [lra|lia]).
  assert (H4 : 2 ^ 1024 = 2 * 2 ^ 1023) by (change 1024%nat with (S 1023); reflexivity).
  lra.
Qed.

Lemma underflow_lt_exp_limit : underflow < exp (- limit).
Proof.
  unfold underflow, limit. rewrite exp_Ropp.
  apply Rinv_lt_contravar.
  - apply Rmult_lt_0_compat; [apply exp_pos|apply pow_lt; lra].
  - apply Rle_lt_trans with (2 ^ 1000).
    + replace 500 with (INR 1000 / 2); [apply exp_le_pow2|].
      rewrite INR_literal. cbn [Z.of_nat Pos.of_succ_nat Pos.succ]. lra.
    + apply Rlt_pow; [lra|lia].
Qed.


(** Inside [exp(-limit), exp(limit)] a result is kept as it is. *)
Lemma range_exact (r : R) : exp (- limit) <= Rabs r <= exp limit -> range r = Fin r.
Proof.
  intros [Hl Hu]. unfold range.
  pose proof exp_limit_lt_overflow. pose proof underflow_lt_exp_limit.
  destruct (Rle_dec overflow (Rabs r)) as [C|_]; [lra|].
  destruct (Rle_dec (Rabs r) underflow) as [C|_]; [lra|reflexivity].
Qed.


(** Below [exp limit] in magnitude a result is kept or, when tiny, rounded
    to zero. *)
Lemma range_small (r : R) :
  Rabs r <= exp limit -> exists w, range r = Fin w /\ (w = r \/ w = 0).
Proof.
  intros Hu. unfold range.
  pose proof exp_limit_lt_overflow.
  destruct (Rle_dec overflow (Rabs r)) as [C|_]; [lra|].
  destruct (Rle_dec (Rabs r) underflow); eexists; split; try reflexivity; auto.
Qed.



End Thresholds.

(** ** Values with bounds *)

Section Values.

Lemma val_positive (L U r : R) (v : dbl) :
  val L U r v -> exists x, v = Fin x /\ 0 < x.
Proof.
  intros [-> [Hl _]]. exists r. split; [reflexivity|].
  pose proof (exp_pos (- L)). lra.
Qed.

Lemma val_range (L U r : R) :
  exp (- L) <= r <= exp U -> L <= limit -> U <= limit -> val L U r (range r).
Proof.
  intros [Hl Hu] HL HU. split; [|now split].
  apply range_exact.
  pose proof (exp_pos (- L)).
  rewrite Rabs_pos_eq by lra. split.
  - apply Rle_trans with (exp (- L)); [apply exp_le; lra|exact Hl].
  - apply Rle_trans with (exp U); [exact Hu|apply exp_le; lra].
Qed.

(** A positive constant between two powers of two. *)
Lemma val_fin (n m : nat) (c : R) :
  / 2 ^ n <= c -> c <= 2 ^ m -> val (INR n) (INR m) c (Fin c).
Proof.
  intros Hl Hu. split; [reflexivity|]. split.
  - rewrite exp_Ropp. apply Rle_trans with (/ 2 ^ n); [|exact Hl].
    apply Rinv_le_contravar; [apply pow_lt; lra|apply pow2_le_exp].
  - apply Rle_trans with (2 ^ m); [exact Hu|apply pow2_le_exp].
Qed.

(** A constant is a double when its magnitude lies between [2^-n] and
    [2^n], for some [n] up to [limit]. *)
Lemma range_constant (n : nat) (c : R) :
  / 2 ^ n <= Rabs c <= 2 ^ n -> INR n <= limit -> range c = Fin c.
Proof.
  intros [Hl Hu] Hn. apply range_exact. split.
  - apply Rle_trans with (/ 2 ^ n); [|exact Hl].
    rewrite exp_Ropp.
    apply Rinv_le_contravar; [apply pow_lt; lra|].
    apply Rle_trans with (exp (INR n)); [apply pow2_le_exp|now apply exp_le].
  - apply Rle_trans with (2 ^ n); [exact Hu|].
    apply Rle_trans with (exp (INR n)); [apply pow2_le_exp|now apply exp_le].
Qed.

Lemma val_mul (L1 U1 L2 U2 x y : R) (u v : dbl) :
  val L1 U1 x u -> val L2 U2 y v ->
  L1 + L2 <= limit -> U1 + U2 <= limit ->
  val (L1 + L2) (U1 + U2) (x * y) (Double.lift2 Rmult u v).
Proof.
  intros [-> [Hxl Hxu]] [-> [Hyl Hyu]] HL HU.
  unfold Double.lift2. apply val_range; [|exact HL|exact HU].
  pose proof (exp_pos (- L1)). pose proof (exp_pos (- L2)).
  split.
  - replace (- (L1 + L2)) with (- L1 + - L2) by lra. rewrite exp_plus.
    apply Rmult_le_compat; lra.
  - rewrite exp_plus. apply Rmult_le_compat; lra.
Qed.

Lemma val_div (L1 U1 L2 U2 x y : R) (u v : dbl) :
  val L1 U1 x u -> val L2 U2 y v ->
  L1 + U2 <= limit -> U1 + L2 <= limit ->
  val (L1 + U2) (U1 + L2) (x / y) (ddiv u v).
Proof.
  intros [-> [Hxl Hxu]] [-> [Hyl Hyu]] HL HU.
  pose proof (exp_pos (- L1)). pose proof (exp_pos (- L2)).
  unfold ddiv. destruct (Req_dec_T y 0) as [C|_]; [lra|].
  apply val_range; [|exact HL|exact HU].
  assert (Hi : exp (- U2) <= / y <= exp L2).
  { split.
    - rewrite exp_Ropp. apply Rinv_le_contravar; lra.
    - replace L2 with (- - L2) by lra. rewrite (exp_Ropp (- L2)).
      apply Rinv_le_contravar; lra. }
  pose proof (exp_pos (- U2)).
  unfold Rdiv. split.
  - replace (- (L1 + U2)) with (- L1 + - U2) by lra. rewrite exp_plus.
    apply Rmult_le_compat; lra.
  - rewrite exp_plus. apply Rmult_le_compat; lra.
Qed.

Lemma exp_sum_le (a b : R) :
  0 <= a -> 0 <= b -> exp a + exp b <= exp (a + b + 1).
Proof.
  intros Ha Hb.
  assert (H1 : exp a <= exp (a + b)) by (apply exp_le; lra).
  assert (H2 : exp b <= exp (a + b)) by (apply exp_le; lra).
  rewrite (exp_plus (a + b) 1).
  pose proof two_le_exp_1. pose proof (exp_pos (a + b)). nra.
Qed.

(** A positive value plus a nonnegative one. *)
Lemma val_add_nonneg (L1 U1 U2 x y : R) (u : dbl) :
  val L1 U1 x u -> 0 <= y <= exp U2 -> 0 <= U1 -> 0 <= U2 ->
  L1 <= limit -> U1 + U2 + 1 <= limit ->
  val L1 (U1 + U2 + 1) (x + y) (Double.lift2 Rplus u (Fin y)).
Proof.
  intros [-> [Hxl Hxu]] [Hy0 Hyu] H1 H2 HL HU.
  unfold Double.lift2. apply val_range; [|exact HL|exact HU].
  pose proof (@exp_sum_le U1 U2 H1 H2). lra.
Qed.

Lemma val_add (L1 U1 L2 U2 x y : R) (u v : dbl) :
  val L1 U1 x u -> val L2 U2 y v -> 0 <= U1 -> 0 <= U2 ->
  L1 <= limit -> U1 + U2 + 1 <= limit ->
  val L1 (U1 + U2 + 1) (x + y) (Double.lift2 Rplus u v).
Proof.
  intros Hu [-> [Hyl Hyu]] H1 H2 HL HU.
  apply val_add_nonneg; try assumption.
  pose proof (exp_pos (- L2)). lra.
Qed.

Lemma val_exp (L U t : R) :
  - L <= t <= U -> L <= limit -> U <= limit ->
  val L U (exp t) (dexp (Fin t)).
Proof.
  intros [Hl Hu] HL HU. unfold dexp.
  apply val_range; [|exact HL|exact HU].
  split; now apply exp_le.
Qed.

Lemma ln_bounds (L U x : R) : exp (- L) <= x <= exp U -> - L <= ln x <= U.
Proof.
  intros [Hl Hu]. pose proof (exp_pos (- L)).
  split.
  - rewrite <- (ln_exp (- L)). apply ln_le_compat; [apply exp_pos|exact Hl].
  - rewrite <- (ln_exp U). apply ln_le_compat; [lra|exact Hu].
Qed.

(** A power with a nonnegative exponent. *)
Lemma val_pow_up (L U m x y : R) (u : dbl) :
  val L U x u -> 0 <= y <= m -> 0 <= L -> 0 <= U ->
  m * L <= limit -> m * U <= limit ->
  val (m * L) (m * U) (Rpower x y) (dpow u (Fin y)).
Proof.
  intros [-> Hx] [Hy0 Hym] H1 H2 HL HU.
  pose proof (@ln_bounds L U x Hx) as [Hl Hu].
  pose proof (exp_pos (- L)).
  unfold dpow. rewrite pow_positive_base by lra.
  apply val_range; [|exact HL|exact HU].
  unfold Rpower. split; apply exp_le; nra.
Qed.

(** A power with a nonpositive exponent. *)
Lemma val_pow_down (L U m x y : R) (u : dbl) :
  val L U x u -> - m <= y <= 0 -> 0 <= L -> 0 <= U ->
  m * U <= limit -> m * L <= limit ->
  val (m * U) (m * L) (Rpower x y) (dpow u (Fin y)).
Proof.
  intros [-> Hx] [Hym Hy0] H1 H2 HL HU.
  pose proof (@ln_bounds L U x Hx) as [Hl Hu].
  pose proof (exp_pos (- L)).
  unfold dpow. rewrite pow_positive_base by lra.
  apply val_range; [|exact HL|exact HU].
  unfold Rpower. split; apply exp_le; nra.
Qed.

Lemma val_weaken (L U L' U' r : R) (v : dbl) :
  val L U r v -> L <= L' -> U <= U' -> val L' U' r v.
Proof.
  intros [-> [Hl Hu]] HL HU. split; [reflexivity|]. split.
  - apply Rle_trans with (exp (- L)); [apply exp_le; lra|exact Hl].
  - apply Rle_trans with (exp U); [exact Hu|apply exp_le; lra].
Qed.

Lemma le_exp_limit (r : R) : r <= limit -> r <= exp limit.
Proof. intros H. pose proof (exp_ineq1_le limit). lra. Qed.

(** A signed result of moderate size is kept, or rounded to zero when
    tiny. *)
Lemma lift2_small (f : R -> R -> R) (x y : R) :
  - limit <= f x y <= limit ->
  exists w, Double.lift2 f (Fin x) (Fin y) = Fin w /\ (w = f x y \/ w = 0).
Proof.
  intros H. unfold Double.lift2. apply range_small.
  apply le_exp_limit. apply Rabs_le. lra.
Qed.

Lemma dle_true (x y : R) : x <= y -> dle (Fin x) (Fin y) = true.
Proof. intros H. unfold dle. now destruct (Rle_dec x y). Qed.


(** A fact about the scalar version of a function carries over to every
    entry of an array. *)
Lemma all_entries_lift (f : ndarray dbl -> ndarray dbl) (P Q : R -> Prop) :
  (forall x, f (Arr0 x) = f (Scalar x)) ->
  (forall zs, f (Arr1 zs) = Arr1 (flat_map (fun z => ravel (f (Scalar z))) zs)) ->
  (forall x, P x -> all_entries Q (f (Scalar (Fin x)))) ->
  forall z, all_entries P z -> all_entries Q (f z).
Proof.
  intros H0 H1 Hs z Hz. unfold all_entries in *.
  destruct z as [x|x|zs]; cbn in Hz.
  - inversion Hz as [|? ? (r & -> & Hr) _]; subst. now apply Hs.
  - rewrite H0. inversion Hz as [|? ? (r & -> & Hr) _]; subst. now apply Hs.
  - rewrite H1. cbn. induction Hz as [|e zs (r & -> & Hr) _ IH]; cbn.
    + constructor.
    + apply Forall_app. split; [now apply Hs|exact IH].
Qed.

Lemma all_entries_val (L U r : R) (v : dbl) :
  val L U r v -> all_entries (fun x => 0 < x) (Scalar v).
Proof.
  intros H. destruct (@val_positive L U r v H) as (x & -> & Hx).
  constructor; [now exists x|constructor].
Qed.

End Values.

(** ** Evaluation inside the range *)

Lemma range_literal (c : R) : / 2 ^ 40 <= Rabs c <= 2 ^ 40 -> range c = Fin c.
Proof.
  intros H. apply (@range_constant 40 c H).
  unfold limit. rewrite INR_literal.
  cbn [Z.of_nat Pos.of_succ_nat Pos.succ]. lra.
Qed.

Lemma lift2_literal (f : R -> R -> R) (x y : R) :
  / 2 ^ 40 <= Rabs (f x y) <= 2 ^ 40 ->
  Double.lift2 f (Fin x) (Fin y) = Fin (f x y).
Proof. intros H. unfold Double.lift2. now apply range_literal. Qed.

(** Settles the sign of a literal under [Rabs]. *)
Ltac abs_literal :=
  literals;
  match goal with
  | |- context [Rabs ?c] =>
      first [ rewrite (Rabs_pos_eq c) by lra
            | rewrite (Rabs_left c) by lra ]
  end;
  lra.

(** Every literal of the goal, read as a double. *)
Ltac consts :=
  repeat match goal with
    | |- context [range (Q2R ?q)] =>
        rewrite (@range_literal (Q2R q)) by abs_literal
    end.

(** An operation on two constants, carried out. *)
Ltac fold_constant f x y :=
  rewrite (@lift2_literal f x y) by abs_literal.

Ltac side := unfold limit; cbn [INR]; literals; lra.

(** A positive constant, placed between two powers of two. *)
Ltac leaf :=
  first
    [ solve [apply (@val_fin 0 0); literals; lra]
    | solve [apply (@val_fin 0 1); literals; lra]
    | solve [apply (@val_fin 0 2); literals; lra]
    | solve [apply (@val_fin 0 3); literals; lra]
    | solve [apply (@val_fin 0 5); literals; lra]
    | solve [apply (@val_fin 0 8); literals; lra]
    | solve [apply (@val_fin 0 10); literals; lra]
    | solve [apply (@val_fin 0 21); literals; lra]
    | solve [apply (@val_fin 0 31); literals; lra]
    | solve [apply (@val_fin 1 0); literals; lra]
    | solve [apply (@val_fin 1 1); literals; lra]
    | solve [apply (@val_fin 1 2); literals; lra]
    | solve [apply (@val_fin 1 3); literals; lra]
    | solve [apply (@val_fin 1 5); literals; lra]
    | solve [apply (@val_fin 1 8); literals; lra]
    | solve [apply (@val_fin 1 10); literals; lra]
    | solve [apply (@val_fin 1 21); literals; lra]
    | solve [apply (@val_fin 1 31); literals; lra]
    | solve [apply (@val_fin 2 0); literals; lra]
    | solve [apply (@val_fin 2 1); literals; lra]
    | solve [apply (@val_fin 2 2); literals; lra]
    | solve [apply (@val_fin 2 3); literals; lra]
    | solve [apply (@val_fin 2 5); literals; lra]
    | solve [apply (@val_fin 2 8); literals; lra]
    | solve [apply (@val_fin 2 10); literals; lra]
    | solve [apply (@val_fin 2 21); literals; lra]
    | solve [apply (@val_fin 2 31); literals; lra]
    | solve [apply (@val_fin 3 0); literals; lra]
    | solve [apply (@val_fin 3 1); literals; lra]
    | solve [apply (@val_fin 3 2); literals; lra]
    | solve [apply (@val_fin 3 3); literals; lra]
    | solve [apply (@val_fin 3 5); literals; lra]
    | solve [apply (@val_fin 3 8); literals; lra]
    | solve [apply (@val_fin 3 10); literals; lra]
    | solve [apply (@val_fin 3 21); literals; lra]
    | solve [apply (@val_fin 3 31); literals; lra]
    | solve [apply (@val_fin 5 0); literals; lra]
    | solve [apply (@val_fin 5 1); literals; lra]
    | solve [apply (@val_fin 5 2); literals; lra]
    | solve [apply (@val_fin 5 3); literals; lra]
    | solve [apply (@val_fin 5 5); literals; lra]
    | solve [apply (@val_fin 5 8); literals; lra]
    | solve [apply (@val_fin 5 10); literals; lra]
    | solve [apply (@val_fin 5 21); literals; lra]
    | solve [apply (@val_fin 5 31); literals; lra]
    | solve [apply (@val_fin 8 0); literals; lra]
    | solve [apply (@val_fin 8 1); literals; lra]
    | solve [apply (@val_fin 8 2); literals; lra]
    | solve [apply (@val_fin 8 3); literals; lra]
    | solve [apply (@val_fin 8 5); literals; lra]
    | solve [apply (@val_fin 8 8); literals; lra]
    | solve [apply (@val_fin 8 10); literals; lra]
    | solve [apply (@val_fin 8 21); literals; lra]
    | solve [apply (@val_fin 8 31); literals; lra]
    | solve [apply (@val_fin 10 0); literals; lra]
    | solve [apply (@val_fin 10 1); literals; lra]
    | solve [apply (@val_fin 10 2); literals; lra]
    | solve [apply (@val_fin 10 3); literals; lra]
    | solve [apply (@val_fin 10 5); literals; lra]
    | solve [apply (@val_fin 10 8); literals; lra]
    | solve [apply (@val_fin 10 10); literals; lra]
    | solve [apply (@val_fin 10 21); literals; lra]
    | solve [apply (@val_fin 10 31); literals; lra]
    | solve [apply (@val_fin 21 0); literals; lra]
    | solve [apply (@val_fin 21 1); literals; lra]
    | solve [apply (@val_fin 21 2); literals; lra]
    | solve [apply (@val_fin 21 3); literals; lra]
    | solve [apply (@val_fin 21 5); literals; lra]
    | solve [apply (@val_fin 21 8); literals; lra]
    | solve [apply (@val_fin 21 10); literals; lra]
    | solve [apply (@val_fin 21 21); literals; lra]
    | solve [apply (@val_fin 21 31); literals; lra]
    | solve [apply (@val_fin 31 0); literals; lra]
    | solve [apply (@val_fin 31 1); literals; lra]
    | solve [apply (@val_fin 31 2); literals; lra]
    | solve [apply (@val_fin 31 3); literals; lra]
    | solve [apply (@val_fin 31 5); literals; lra]
    | solve [apply (@val_fin 31 8); literals; lra]
    | solve [apply (@val_fin 31 10); literals; lra]
    | solve [apply (@val_fin 31 21); literals; lra]
    | solve [apply (@val_fin 31 31); literals; lra] ].

(** Splits the alternatives "kept or rounded to zero" and concludes by
    linear arithmetic. *)
Ltac cases :=
  repeat match goal with H : _ \/ _ |- _ => destruct H end;
  subst; unfold limit; literals; lra.

Section MoreValues.

Lemma le_exp_nat (n : nat) (r : R) : r <= 2 ^ n -> r <= exp (INR n).
Proof. intros H. apply Rle_trans with (2 ^ n); [exact H|apply pow2_le_exp]. Qed.



(** A power of a base that is at least [1], with an exponent of either
    sign. *)
Lemma val_pow_base_ge1 (U m1 m2 x y : R) (u : dbl) :
  val 0 U x u -> - m1 <= y <= m2 -> 0 <= m1 -> 0 <= m2 -> 0 <= U ->
  m1 * U <= limit -> m2 * U <= limit ->
  val (m1 * U) (m2 * U) (Rpower x y) (dpow u (Fin y)).
Proof.
  intros [-> Hx] [Hy1 Hy2] H1 H2 HU HL1 HL2.
  pose proof (@ln_bounds 0 U x Hx) as [Hl Hu].
  rewrite Ropp_0 in Hx, Hl. rewrite exp_0 in Hx.
  unfold dpow. rewrite pow_positive_base by lra.
  apply val_range; [|exact HL1|exact HL2].
  unfold Rpower. split; apply exp_le; nra.
Qed.

(** A power with an exponent of either sign. *)
Lemma val_pow (L U m x y : R) (u : dbl) :
  val L U x u -> - m <= y <= m -> 0 <= L -> 0 <= U ->
  m * (L + U) <= limit ->
  val (m * (L + U)) (m * (L + U)) (Rpower x y) (dpow u (Fin y)).
Proof.
  intros [-> Hx] [Hy1 Hy2] H1 H2 HL.
  pose proof (@ln_bounds L U x Hx) as [Hl Hu].
  pose proof (exp_pos (- L)).
  unfold dpow. rewrite pow_positive_base by lra.
  apply val_range; [|exact HL|exact HL].
  unfold Rpower. split; apply exp_le; nra.
Qed.

Lemma all_entries_val0 (L U r : R) (v : dbl) :
  val L U r v -> all_entries (fun x => 0 < x) (Arr0 v).
Proof.
  intros H. destruct (@val_positive L U r v H) as (x & -> & Hx).
  constructor; [now exists x|constructor].
Qed.

End MoreValues.

(** ** The rates inside the range of doubles *)

Section InRange.

Local Notation "'positive'" := (all_entries (fun v => 0 < v)).



(** [1 + z] for [0 <= z <= 100]. *)
Lemma one_plus_z (z : R) :
  0 <= z <= 100 ->
  val (INR 0) (INR 0 + INR 7 + 1) (Q2R 1 + z)
    (Double.lift2 Rplus (Fin (Q2R 1)) (Fin z)).
Proof.
  intros Hz.
  apply val_add_nonneg; [leaf| |side..].
  split; [lra|]. apply le_exp_nat. lra.
Qed.






Lemma HB06_in_range (z : R) :
  0 <= z <= 100 -> positive (HB06_default (Scalar (Fin z))).
Proof.
  intros Hz.
  unfold HB06_default, HB06, HB06_low, HB06_mid, HB06_high, where_. cbn.
  consts.
  fold_constant Rplus (Q2R 1) (Q2R 0.97).
  fold_constant Rplus (Q2R 1) (Q2R 4.48).
  fold_constant Rminus (Q2R 3.44) (Q2R (-0.26)).
  fold_constant Rminus (Q2R (-0.26)) (Q2R (-7.8)).
  pose proof (one_plus_z Hz) as H1z.
  assert (Hmid : exists L U r,
             val L U r
               (Double.lift2 Rmult
                  (dpow (Double.lift2 Rplus (Fin (Q2R 1)) (Fin z)) (Fin (Q2R (-0.26))))
                  (dpow (Fin (Q2R 1 + Q2R 0.97)) (Fin (Q2R 3.44 - Q2R (-0.26)))))
             /\ L <= 20 /\ U <= 20).
  { do 3 eexists. split.
    - eapply val_mul;
        [ apply val_pow_down with (m := - Q2R (-0.26)); [exact H1z|literals; lra|side..]
        | apply val_pow_up with (m := Q2R 3.44 - Q2R (-0.26)); [leaf|literals; lra|side..]
        | side | side ].
    - split; side. }
  destruct Hmid as (Lm & Um & rm & Hm & HLm & HUm).
  destruct (dge (Fin z) (Fin 4.48)); [|destruct (dle (Fin z) (Fin 0.97))];
    eapply all_entries_val.
  - eapply val_mul;
      [ leaf
      | eapply val_mul;
        [ eapply val_mul;
          [ apply val_pow_down with (m := - Q2R (-7.8)); [exact H1z|literals; lra|side..]
          | apply val_pow_up with (m := Q2R (-0.26) - Q2R (-7.8));
            [leaf|literals; lra|side..]
          | side | side ]
        | apply val_pow_up with (m := Q2R 3.44 - Q2R (-0.26)); [leaf|literals; lra|side..]
        | side | side ]
      | side | side ].
  - eapply val_mul;
      [ leaf
      | apply val_pow_up with (m := Q2R 3.44); [exact H1z|literals; lra|side..]
      | side | side ].
  - eapply val_mul; [leaf|exact Hm|side|side].
Qed.

(** [D06] at a preset of [qD06]: [a] in [0.125, 1], [b] and [c] in
    [0, 4], [d] in [1, 32], and a positive norm of moderate size. *)
Lemma D06_in_range (z a b c d L U norm : R) (nv : dbl) :
  0 <= z <= 100 ->
  / 2 ^ 3 <= a <= 1 -> 0 <= b <= 4 -> 0 <= c <= 4 -> 1 <= d <= 2 ^ 5 ->
  val L U norm nv -> 0 <= L <= 80 -> 0 <= U <= 80 ->
  positive (D06 (Scalar (Fin z)) (Fin a) (Fin b) (Fin c) (Fin d) nv).
Proof.
  intros Hz Ha Hb Hc Hd Hn HL HU. unfold D06, np_exp. cbn.
  destruct (@lift2_small Rmult b z) as (t1 & -> & H1); [unfold limit; nra|].
  destruct (@lift2_small Rmult c z) as (t2 & -> & H2); [unfold limit; nra|].
  eapply all_entries_val.
  eapply val_mul;
    [ exact Hn
    | eapply val_div;
      [ eapply val_mul;
        [ apply (@val_fin 3 0); lra
        | apply (@val_exp 0 400); [destruct H1; subst; nra|side|side]
        | side | side ]
      | eapply val_add;
        [ apply (@val_fin 0 5); lra
        | apply (@val_exp 0 400); [destruct H2; subst; nra|side|side]
        | side.. ]
      | side | side ]
    | side | side ].
Qed.

End InRange.

Section RatesInRange.

Local Notation "'positive'" := (all_entries (fun v => 0 < v)).




End RatesInRange.

(** ** Further properties inside the range of doubles *)

Section MoreInRange.

Local Notation "'positive'" := (all_entries (fun v => 0 < v)).

(** [HB06] with its default parameters returns in every entry a finite,
    strictly positive double on [0 <= z <= 100], scalar or array. *)
Theorem HB06_positive_in_range (z : ndarray dbl) :
  all_entries (fun x => 0 <= x <= 100) z -> positive (HB06_default z).
Proof.
  revert z. apply all_entries_lift; try reflexivity.
  - intros zs. apply HB06_elementwise.
  - apply HB06_in_range.
Qed.

Lemma HB06_positive_in_range_example :
  all_entries (fun x => 0 <= x <= 100) (Arr1 [Fin 0; Fin 3; Fin 9])
  /\ positive (HB06_default (Arr1 [Fin 0; Fin 3; Fin 9])).
Proof.
  assert (Hz : all_entries (fun x => 0 <= x <= 100) (Arr1 [Fin 0; Fin 3; Fin 9])).
  { repeat constructor; eexists; (split; [reflexivity|lra]). }
  split; [exact Hz|].
  exact (HB06_positive_in_range Hz).
Defined.

(** [D06] at a preset, on arrays. *)
Lemma D06_preset_in_range (z : ndarray dbl) (a b c d k IMF_norm : R) :
  / 2 ^ 3 <= a <= 1 -> 0 <= b <= 4 -> 0 <= c <= 4 -> 1 <= d <= 2 ^ 5 ->
  / 2 ^ 21 <= k <= 1 -> / 2 ^ 31 <= IMF_norm <= 2 ^ 31 ->
  all_entries (fun x => 0 <= x <= 100) z ->
  positive (D06 z (Fin a) (Fin b) (Fin c) (Fin d)
              (Double.lift2 Rmult (Fin k) (Fin IMF_norm))).
Proof.
  intros Ha Hb Hc Hd Hk Hi. revert z. apply all_entries_lift; try reflexivity.
  - intros zs. apply D06_elementwise.
  - intros x Hx.
    eapply D06_in_range; try eassumption;
      [ eapply val_mul; [apply (@val_fin 21 0); lra|apply (@val_fin 31 31); lra|side|side]
      | split; side | split; side ].
Qed.

(** Every call of [qD06] with a valid [mod], an int [SFR] among 1, 2, 3
    and [IMF_norm] between [1e-9] and [1e9] returns, on [0 <= z <= 100],
    a value whose every entry is a finite, strictly positive double. *)
Theorem qD06_positive_in_range (z : ndarray dbl) (SFR : Z) (mod_ : string)
    (IMF_norm : R) :
  valid_mod mod_ = true -> valid_SFR SFR = true ->
  1e-9 <= IMF_norm <= 1e9 ->
  all_entries (fun x => 0 <= x <= 100) z ->
  exists v, qD06 z SFR mod_ (Fin IMF_norm) = Ok v /\ positive v.
Proof.
  intros Hm Hs Hi Hz.
  apply valid_mod_spec in Hm. apply valid_SFR_spec in Hs.
  destruct (qD06_presets z (Fin IMF_norm)) as (E1 & E2 & E3 & E4 & E5 & E6).
  destruct Hm as [-> | ->], Hs as [-> | [-> | ->]];
    eexists; (split; [eassumption|]);
    cbn [lit binary64 fmul]; consts;
    apply D06_preset_in_range; try exact Hz; literals; lra.
Qed.

Lemma qD06_positive_in_range_example :
  (valid_mod "LN" = true /\ valid_SFR 3 = true /\ 1e-9 <= 0.0122 <= 1e9)
  /\ exists v, qD06 (Arr1 [Fin 0; Fin 1; Fin 8]) 3 "LN" (Fin 0.0122) = Ok v
               /\ positive v.
Proof.
  assert (Hi : 1e-9 <= 0.0122 <= 1e9) by lra.
  assert (Hz : all_entries (fun x => 0 <= x <= 100) (Arr1 [Fin 0; Fin 1; Fin 8])).
  { repeat constructor; eexists; (split; [reflexivity|lra]). }
  split; [now repeat split|].
  exact (qD06_positive_in_range 3 "LN" eq_refl eq_refl Hi Hz).
Defined.

Lemma Rpower_10_2 : Rpower 10 2 = 100.
Proof.
  replace 2 with (INR 2) by (cbn; lra).
  rewrite Rpower_pow by lra. cbn. lra.
Qed.

(** [x = 10 ** (logL - logLbreak)] between ten decades below the break and
    two above: a double between [exp(-40)] and [100]. *)
Lemma decades_in_range (w : R) :
  - 10 <= w <= 2 ->
  val (10 * INR 4) (2 * INR 4) (Rpower (Q2R 10) w) (dpow (Fin (Q2R 10)) (Fin w))
  /\ Rpower (Q2R 10) w <= 100.
Proof.
  intros Hw. split.
  - apply val_pow_base_ge1; [|lra|side..].
    change 0 with (INR 0) at 1. apply val_fin; literals; lra.
  - replace (Q2R 10) with 10 by (literals; lra).
    rewrite <- Rpower_10_2. apply Rle_Rpower; lra.
Qed.

Lemma Schechter_log_in_range (logL logLbreak slope : R) :
  - 10 <= logL - logLbreak <= 2 -> - 5 <= slope <= 5 ->
  positive (Schechter_log (Scalar (Fin logL)) (Fin logLbreak) (Fin slope)).
Proof.
  intros Hd Hs. unfold Schechter_log, np_exp. cbn.
  consts.
  destruct (@lift2_small Rminus logL logLbreak) as (w & -> & Hw);
    [unfold limit; lra|].
  destruct (@lift2_small Rminus (Q2R 1) slope) as (e & -> & He);
    [unfold limit; literals; lra|].
  destruct (@decades_in_range w) as [Hx Hx100]; [cases|].
  pose proof Hx as [Ex [Hxl _]]. rewrite Ex. cbn [dneg].
  pose proof (exp_pos (- (10 * INR 4))).
  eapply all_entries_val.
  eapply val_mul;
    [ apply val_pow with (m := 6); [rewrite <- Ex; exact Hx|cases|side..]
    | apply (@val_exp 100 0); [lra|side|side]
    | side | side ].
Qed.

Lemma BPL_lum_in_range (logL logLbreak slopeL slopeH : R) :
  - 10 <= logL - logLbreak <= 2 -> - 5 <= slopeL <= 5 -> - 5 <= slopeH <= 5 ->
  positive (BPL_lum (Scalar (Fin logL)) (Fin logLbreak) (Fin slopeL) (Fin slopeH)).
Proof.
  intros Hd HL HH. unfold BPL_lum, BPL_lum_low, BPL_lum_high, where_. cbn.
  consts.
  destruct (@lift2_small Rminus logL logLbreak) as (w & -> & Hw);
    [unfold limit; lra|].
  destruct (@lift2_small Rminus (Q2R 1) slopeL) as (e1 & -> & He1);
    [unfold limit; literals; lra|].
  destruct (@lift2_small Rminus (Q2R 1) slopeH) as (e2 & -> & He2);
    [unfold limit; literals; lra|].
  destruct (@decades_in_range w) as [Hx _]; [cases|].
  destruct (dle _ _); eapply all_entries_val0.
  - apply val_pow with (m := 6); [exact Hx|cases|side..].
  - apply val_pow with (m := 6); [exact Hx|cases|side..].
Qed.

(** Between ten decades below the break and two above it, and with slopes
    between [-5] and [5], [Schechter_log] and [BPL_lum] return in every
    entry a finite, strictly positive double. *)
Theorem luminosity_functions_positive_in_range (logL : ndarray dbl)
    (logLbreak slope slopeL slopeH : R) :
  - 5 <= slope <= 5 -> - 5 <= slopeL <= 5 -> - 5 <= slopeH <= 5 ->
  all_entries (fun x => - 10 <= x - logLbreak <= 2) logL ->
  positive (Schechter_log logL (Fin logLbreak) (Fin slope))
  /\ positive (BPL_lum logL (Fin logLbreak) (Fin slopeL) (Fin slopeH)).
Proof.
  intros Hs HL HH Hz.
  split; revert logL Hz; apply all_entries_lift; try reflexivity.
  - intros zs. apply Schechter_log_elementwise.
  - intros x Hx. now apply Schechter_log_in_range.
  - intros zs. apply BPL_lum_elementwise.
  - intros x Hx. now apply BPL_lum_in_range.
Qed.

Lemma luminosity_functions_positive_in_range_example :
  (- 5 <= 1.5 <= 5 /\ - 5 <= 0.5 <= 5 /\ - 5 <= 2.5 <= 5)
  /\ all_entries (fun x => - 10 <= x - 52.5 <= 2) (Arr1 [Fin 50; Fin 52.5; Fin 54])
  /\ positive (Schechter_log (Arr1 [Fin 50; Fin 52.5; Fin 54]) (Fin 52.5) (Fin 1.5)).
Proof.
  assert (Hs : - 5 <= 1.5 <= 5) by lra.
  assert (HL : - 5 <= 0.5 <= 5) by lra.
  assert (HH : - 5 <= 2.5 <= 5) by lra.
  assert (Hz : all_entries (fun x => - 10 <= x - 52.5 <= 2)
                 (Arr1 [Fin 50; Fin 52.5; Fin 54])).
  { repeat constructor; eexists; (split; [reflexivity|lra]). }
  split; [now repeat split|]. split; [exact Hz|].
  exact (proj1 (luminosity_functions_positive_in_range Hs HL HH Hz)).
Defined.








End MoreInRange.
